(** * Sentinel-1 example notebook (notebooks/04_EY_challenge2/Sentinel-1_example_rgb.ipynb)

    A shallow embedding of the notebook's code cells: the dataset query and
    its sort, the two list indexings, the five derived channels added to the
    loaded raster and the second construction of the false-colour composite.

    - Python exceptions are an error monad ([result]); a cell that raises
      stops the run.
    - Arrays hold IEEE-754 binary floating-point numbers, modelled with the
      Standard Library's [spec_float] and its operations ([SFdiv], [SFadd],
      [SFmul]).  The raster's dtype is fixed by the product definition, which
      is not part of the notebook, so the format ([prec], [emax]) is a
      parameter: binary32 is (24, 128), binary64 is (53, 1024).
    - The raster that [dc.load] returns holds all its measurements on one
      grid.  A [DataArray] is the row-major vector of the [n] pixels of that
      grid; an [xarray.Dataset] is a finite map from variable names to such
      arrays, so two variables of one raster cannot differ in shape.
    - Sums of pixels follow numpy's pairwise summation.
    - The datacube, the plotting helpers and the display are external: they
      are the fields of a [World], each of which may raise. *)

From Stdlib Require Import ZArith Lia Floats.SpecFloat Sorting.Sorted Reals Lra.
From stdpp Require Import base option list strings gmap vector.

Open Scope Z_scope.

(** ** Python exceptions *)

Inductive exn :=
| IndexError
| KeyError (key : string)
| AttributeError (name : string)
| TypeError
| LibraryError (msg : string).

Inductive result (A : Type) :=
| Ok (a : A)
| Raise (e : exn).
Arguments Ok {A} a.
Arguments Raise {A} e.

#[global] Instance result_ret : MRet result := λ A a, Ok a.
#[global] Instance result_bind : MBind result := λ A B f m,
  match m with
  | Ok a => f a
  | Raise e => Raise e
  end.

Definition succeeds {A} (m : result A) : Prop := ∃ a, m = Ok a.

(** ** Python lists: [l[i]] *)

(** Indexing with an integer: a negative index counts from the end, an index
    outside [-len, len) raises [IndexError]. *)
Definition getitem {A} (l : list A) (i : Z) : result A :=
  let n := Z.of_nat (length l) in
  let j := if i <? 0 then i + n else i in
  if (0 <=? j) && (j <? n) then
    match l !! Z.to_nat j with
    | Some a => Ok a
    | None => Raise IndexError
    end
  else Raise IndexError.

(** ** Python's [sorted(l, key=...)]

    [sorted] is stable and compares keys with [<] only.  The embedding is the
    stable insertion sort: an element goes in front of the first later element
    whose key is not smaller than its own. *)
Section Sorted.
Context {A K : Type} (lt : K → K → bool) (key : A → K).

Fixpoint insert_sorted (x : A) (l : list A) : list A :=
  match l with
  | [] => [x]
  | y :: l' => if lt (key y) (key x) then y :: insert_sorted x l' else x :: y :: l'
  end.

Definition sorted (l : list A) : list A := foldr insert_sorted [] l.
End Sorted.

(** ** Metadata documents (nested Python dicts read from YAML) *)

#[warnings="-register-all"]
Inductive doc :=
| DStr (s : string)
| DNum (x : spec_float)
| DDict (items : list (string * doc)).

Fixpoint assoc (k : string) (items : list (string * doc)) : option doc :=
  match items with
  | [] => None
  | (k', v) :: items' => if String.eqb k k' then Some v else assoc k items'
  end.

(** [d[k]] on a document: [KeyError] when the key is absent, [TypeError]
    when [d] is not a dict. *)
Definition doc_getitem (d : doc) (k : string) : result doc :=
  match d with
  | DDict items =>
      match assoc k items with
      | Some v => Ok v
      | None => Raise (KeyError k)
      end
  | _ => Raise TypeError
  end.

(** [d == s] for a string [s]: a value that is not a string is unequal. *)
Definition doc_eq_str (d : doc) (s : string) : bool :=
  match d with
  | DStr t => String.eqb t s
  | _ => false
  end.

(** ** datacube datasets *)

Module Dataset.
(** [center_time] is a point in time (microseconds since the epoch), [id] a
    UUID (compared as its 128-bit integer), [metadata_doc] the dataset's
    metadata document. *)
Record t := mk {
  center_time : Z;
  id : N;
  metadata_doc : doc
}.
End Dataset.

(** The sort key [lambda ds: (ds.center_time, ds.id)] and Python's [<] on
    pairs: the first components decide unless they are equal. *)
Definition key (ds : Dataset.t) : Z * N := (Dataset.center_time ds, Dataset.id ds).

Definition tuple_lt (a b : Z * N) : bool :=
  if a.1 =? b.1 then (a.2 <? b.2)%N else a.1 <? b.1.

Definition tuple_le (a b : Z * N) : Prop :=
  a.1 < b.1 ∨ (a.1 = b.1 ∧ (a.2 <= b.2)%N).

Definition key_le (a b : Dataset.t) : Prop := tuple_le (key a) (key b).

(** ** Floating-point pixels and arrays *)

Abbreviation float := spec_float (only parsing).
Abbreviation DataArray n := (vec spec_float n) (only parsing).
Abbreviation xr_Dataset n := (gmap string (vec spec_float n)) (only parsing).

Definition is_nan (x : float) : bool :=
  match x with S754_nan => true | _ => false end.

Definition is_inf (x : float) : bool :=
  match x with S754_infinity _ => true | _ => false end.

Definition is_zero (x : float) : bool :=
  match x with S754_zero _ => true | _ => false end.

(** [numpy.isfinite]: neither NaN nor an infinity. *)
Definition is_finite (x : float) : bool :=
  match x with S754_zero _ | S754_finite _ _ _ => true | _ => false end.

(** Finite and not zero: an ordinary non-zero number. *)
Definition finite_nonzero (x : float) : bool :=
  match x with S754_finite _ _ _ => true | _ => false end.

(** The sign bit ([numpy.signbit]); NaN carries none here. *)
Definition sign (x : float) : bool :=
  match x with
  | S754_zero s | S754_infinity s | S754_finite s _ _ => s
  | S754_nan => false
  end.

Definition pos_zero : float := S754_zero false.

(** [s1.name]: attribute access to a data variable. *)
Definition getattr {n} (ds : xr_Dataset n) (name : string) : result (DataArray n) :=
  match ds !! name with
  | Some a => Ok a
  | None => Raise (AttributeError name)
  end.

(** [s1[name] = a], for an array on the raster's grid. *)
Definition setitem {n} (ds : xr_Dataset n) (name : string) (a : DataArray n) :
    xr_Dataset n :=
  <[name := a]> ds.

(** Pixel [i] of the data variable [name], when both exist. *)
Definition pixel {n} (ds : xr_Dataset n) (name : string) (i : nat) : option float :=
  a ← ds !! name; vec_to_list a !! i.

(** The names the derivation cell assigns to. *)
Definition derived_names : gset string :=
  {[ "vv_vh"; "vh_vv"; "vv_r"; "vh_g"; "vhvv_b" ]}.

(** ** The external libraries *)

(** What the notebook calls and does not define: the datacube
    ([Datacube(app=...)], [dc.find_datasets(product=...)],
    [dc.load(product=..., id=..., ...)], whose coordinate system and
    resolution arguments only reach the library), the map display and the
    plotting calls.  Each may raise.  [n] is the number of pixels of the grid
    on which the load returns the raster. *)
Record World (n : nat) := {
  Datacube : string → result unit;
  find_datasets : string → result (list Dataset.t);
  load : string → string → result (xr_Dataset n);
  display_map : doc * doc → doc * doc → result unit;
  plot : DataArray n → result unit;
  imshow : list (DataArray n) → result unit;
  rgb : xr_Dataset n → list string → result unit
}.
Arguments Datacube {n} _ _.
Arguments find_datasets {n} _ _.
Arguments load {n} _ _ _.
Arguments display_map {n} _ _ _.
Arguments plot {n} _ _.
Arguments imshow {n} _ _.
Arguments rgb {n} _ _ _.

(** ** The cells, in order *)

(** The hard-coded dataset identifier (the notebook's variable [id]). *)
Definition id : string := "e320bae8-996e-56ea-ae68-0efbefa47e9a".

(** [sorted(senti_datasets, key = lambda ds: (ds.center_time, ds.id))] *)
Definition senti_datasets (found : list Dataset.t) : list Dataset.t :=
  sorted tuple_lt key found.

(** The query cell: find, sort, take element 100, read its label. *)
Definition locate {n} (w : World n) : result (list Dataset.t * Dataset.t) :=
  found ← find_datasets w "s1_rtc";
  let senti := senti_datasets found in
  sample ← getitem senti 100;
  _ ← doc_getitem (Dataset.metadata_doc sample) "label";
  Ok (senti, sample).

(** [[ds for ds in senti_datasets if ds.metadata_doc['id'] == id]] *)
Fixpoint selected_id (senti : list Dataset.t) : result (list Dataset.t) :=
  match senti with
  | [] => Ok []
  | ds :: senti' =>
      v ← doc_getitem (Dataset.metadata_doc ds) "id";
      rest ← selected_id senti';
      Ok (if doc_eq_str v id then ds :: rest else rest)
  end.

Record Extent := {
  lat_dict : doc;
  lon_dict : doc;
  dt_string : doc
}.

(** Latitude, longitude and datetime of the first selected dataset. *)
Definition extent_of (selected : list Dataset.t) : result Extent :=
  ds ← getitem selected 0;
  ext ← doc_getitem (Dataset.metadata_doc ds) "extent";
  lat ← doc_getitem ext "lat";
  ds ← getitem selected 0;
  ext ← doc_getitem (Dataset.metadata_doc ds) "extent";
  lon ← doc_getitem ext "lon";
  ds ← getitem selected 0;
  props ← doc_getitem (Dataset.metadata_doc ds) "properties";
  dt ← doc_getitem props "datetime";
  Ok {| lat_dict := lat; lon_dict := lon; dt_string := dt |}.

(** [(d['begin'], d['end'])] *)
Definition interval (d : doc) : result (doc * doc) :=
  b ← doc_getitem d "begin";
  e ← doc_getitem d "end";
  Ok (b, e).

(** Method 1 of the composite: the three normalised channels, shown. *)
Definition method1 {n} (w : World n) (s1 : xr_Dataset n) : result unit :=
  r ← getattr s1 "vv_r";
  g ← getattr s1 "vh_g";
  b ← getattr s1 "vhvv_b";
  imshow w [r; g; b].

(** The three channels of the second composite and the dataset built from them. *)
Record Composite (n : nat) := {
  red_arr : DataArray n;
  green_arr : DataArray n;
  blue_arr : DataArray n;
  composite_arr : xr_Dataset n
}.
Arguments red_arr {n} _.
Arguments green_arr {n} _.
Arguments blue_arr {n} _.
Arguments composite_arr {n} _.

Module Namespace.
(** The notebook's variables after the last cell. *)
Record t (n : nat) := mk {
  senti : list Dataset.t;
  sample : Dataset.t;
  s1 : xr_Dataset n;
  selected : list Dataset.t;
  extent : Extent;
  latitude : doc * doc;
  longitude : doc * doc;
  composite : Composite n
}.
Arguments mk {n} _ _ _ _ _ _ _ _.
Arguments senti {n} _.
Arguments sample {n} _.
Arguments s1 {n} _.
Arguments selected {n} _.
Arguments extent {n} _.
Arguments latitude {n} _.
Arguments longitude {n} _.
Arguments composite {n} _.
End Namespace.

(** ** Array arithmetic and the cells that compute *)

Section Arithmetic.
(** The floating-point format of the raster's dtype. *)
Variables prec emax : Z.

(** An integer (a pixel count) in the array's format. *)
Definition of_Z (z : Z) : float := binary_normalize prec emax z 0 false.

(** [a / b] on two arrays of the raster: pixel by pixel. *)
Definition truediv {n} (a b : DataArray n) : DataArray n :=
  vzip_with (SFdiv prec emax) a b.

(** [a / m] for a scalar (or zero-dimensional array) [m]: broadcast. *)
Definition truediv_scalar {n} (a : DataArray n) (m : float) : DataArray n :=
  vmap (λ x, SFdiv prec emax x m) a.

(** *** Sum of all pixels ([numpy.add.reduce] on a contiguous array)

    The reduction starts from the identity [0.0] and adds the pairwise sum
    of the pixels: fewer than 8 pixels are added one by one from [0.]; up to
    128 pixels go through 8 accumulators, which take 8 pixels at a time, are
    then added up as a balanced tree, and to which the remaining pixels are
    added one by one; a longer array is cut in two at a multiple of 8 and
    the two halves are summed on their own. *)
Definition add_each (acc : float) (l : list float) : float :=
  foldl (SFadd prec emax) acc l.

Definition add_tree (r : list float) : float :=
  match r with
  | [r0; r1; r2; r3; r4; r5; r6; r7] =>
      SFadd prec emax
        (SFadd prec emax (SFadd prec emax r0 r1) (SFadd prec emax r2 r3))
        (SFadd prec emax (SFadd prec emax r4 r5) (SFadd prec emax r6 r7))
  | _ => pos_zero
  end.

(** [r[j] += a[i + j]] for [k] groups of 8 pixels; what is left of the array
    comes back with the accumulators. *)
Fixpoint add_lanes (k : nat) (r l : list float) : list float * list float :=
  match k with
  | O => (r, l)
  | S k => add_lanes k (zip_with (SFadd prec emax) r (take 8 l)) (drop 8 l)
  end.

Definition block_sum (l : list float) : float :=
  let '(r, rest) := add_lanes (length l / 8 - 1) (take 8 l) (drop 8 l) in
  add_each (add_tree r) rest.

(** [fuel] bounds the depth of the halving; the length of the list is
    always enough. *)
Fixpoint pairwise_sum (fuel : nat) (l : list float) : float :=
  if bool_decide (length l < 8)%nat then add_each pos_zero l
  else if bool_decide (length l ≤ 128)%nat then block_sum l
  else match fuel with
       | O => pos_zero
       | S fuel =>
           let n2 := (length l / 2 - (length l / 2) mod 8)%nat in
           SFadd prec emax (pairwise_sum fuel (take n2 l))
                 (pairwise_sum fuel (drop n2 l))
       end.

Definition sum (a : list float) : float :=
  SFadd prec emax pos_zero (pairwise_sum (length a) a).

(** [numpy.nanmean]: NaN pixels are replaced by zero before summing and are
    left out of the count; the mean of no pixel at all is [0/0]. *)
Definition replace_nan (a : list float) : list float :=
  (λ x, if is_nan x then pos_zero else x) <$> a.

Definition count_not_nan (a : list float) : nat :=
  length (filter (λ x, is_nan x = false) a).

Definition nanmean (a : list float) : float :=
  SFdiv prec emax (sum (replace_nan a)) (of_Z (Z.of_nat (count_not_nan a))).

(** [DataArray.mean()] with its default [skipna]: for a floating-point array
    xarray skips NaN, by calling [nanmean]. *)
Definition mean (a : list float) : float := nanmean a.


(** [s] is what adding up the numbers of [l], and any number of [+0], gives
    in some order and some grouping. *)
Inductive adds_up : list float → float → Prop :=
| adds_nil : adds_up [] pos_zero
| adds_one x : adds_up [x] x
| adds_add l l1 l2 a b :
    adds_up l1 a → adds_up l2 b → l ≡ₚ l1 ++ l2 → adds_up l (SFadd prec emax a b).

(** *** The cell that adds the derived channels

<<
    s1["vv_vh"] = s1.vv/s1.vh
    s1["vh_vv"] = s1.vh/s1.vv
    s1["vv_r"] = s1.vv/s1.vv.mean()
    s1["vh_g"] = s1.vh/s1.vh.mean()
    s1["vhvv_b"] = s1.vh_vv/s1.vh_vv.mean()
>> *)
Definition add_channels {n} (s1 : xr_Dataset n) : result (xr_Dataset n) :=
  vv ← getattr s1 "vv"; vh ← getattr s1 "vh";
  let s1 := setitem s1 "vv_vh" (truediv vv vh) in
  vh ← getattr s1 "vh"; vv ← getattr s1 "vv";
  let s1 := setitem s1 "vh_vv" (truediv vh vv) in
  vv ← getattr s1 "vv"; vv' ← getattr s1 "vv";
  let s1 := setitem s1 "vv_r" (truediv_scalar vv (mean (vec_to_list vv'))) in
  vh ← getattr s1 "vh"; vh' ← getattr s1 "vh";
  let s1 := setitem s1 "vh_g" (truediv_scalar vh (mean (vec_to_list vh'))) in
  vh_vv ← getattr s1 "vh_vv"; vh_vv' ← getattr s1 "vh_vv";
  let s1 := setitem s1 "vhvv_b" (truediv_scalar vh_vv (mean (vec_to_list vh_vv'))) in
  Ok s1.

(** The dataset the cell leaves behind, in closed form, for a raster whose
    bands are [vv] and [vh]. *)
Definition with_channels {n} (s1 : xr_Dataset n) (vv vh : DataArray n) :
    xr_Dataset n :=
  let vv_vh := truediv vv vh in
  let vh_vv := truediv vh vv in
  <["vhvv_b" := truediv_scalar vh_vv (mean vh_vv)]>
    (<["vh_g" := truediv_scalar vh (mean vh)]>
      (<["vv_r" := truediv_scalar vv (mean vv)]>
        (<["vh_vv" := vh_vv]> (<["vv_vh" := vv_vh]> s1)))).

(** A raster with the two measurement bands only, its pixels given as
    integers (for examples). *)
Definition raster {n} (vv vh : vec Z n) : xr_Dataset n :=
  <["vh" := vmap of_Z vh]> (<["vv" := vmap of_Z vv]> ∅).

(** *** Method 2 of the false-colour composite

<<
    red_arr = xr.DataArray(s1.vv) / np.nanmean(xr.DataArray(s1.vv))
    green_arr = xr.DataArray(s1.vh) / np.nanmean(xr.DataArray(s1.vh))
    blue_arr = xr.DataArray(s1.vh_vv) / np.nanmean(xr.DataArray(s1.vh_vv))
    composite_arr = xr.Dataset({'red': red_arr, 'green': green_arr, 'blue': blue_arr})
>> *)
Definition method2 {n} (s1 : xr_Dataset n) : result (Composite n) :=
  vv ← getattr s1 "vv"; vv' ← getattr s1 "vv";
  let red := truediv_scalar vv (nanmean (vec_to_list vv')) in
  vh ← getattr s1 "vh"; vh' ← getattr s1 "vh";
  let green := truediv_scalar vh (nanmean (vec_to_list vh')) in
  vh_vv ← getattr s1 "vh_vv"; vh_vv' ← getattr s1 "vh_vv";
  let blue := truediv_scalar vh_vv (nanmean (vec_to_list vh_vv')) in
  Ok {| red_arr := red; green_arr := green; blue_arr := blue;
        composite_arr := <["blue" := blue]> (<["green" := green]> (<["red" := red]> ∅)) |}.

(** All cells from top to bottom; the first exception ends the run. *)
Definition run_all {n} (w : World n) : result (Namespace.t n) :=
  _ ← Datacube w "Sentinel-1 example";
  '(senti, sample) ← locate w;
  s1 ← load w "s1_rtc" id;
  selected ← selected_id senti;
  ext ← extent_of selected;
  latitude ← interval (lat_dict ext);
  longitude ← interval (lon_dict ext);
  _ ← display_map w longitude latitude;
  s1 ← add_channels s1;
  vh_g ← getattr s1 "vh_g"; _ ← plot w vh_g;
  vv_r ← getattr s1 "vv_r"; _ ← plot w vv_r;
  vh_vv ← getattr s1 "vh_vv"; _ ← plot w vh_vv;
  _ ← method1 w s1;
  c ← method2 s1;
  _ ← rgb w (composite_arr c) ["red"; "green"; "blue"];
  Ok (Namespace.mk senti sample s1 selected ext latitude longitude c).
End Arithmetic.

(** ** Auxiliary notions for the properties *)

(** The test of the comprehension on one dataset, when its document has an
    ['id']. *)
Definition has_id (ds : Dataset.t) : bool :=
  match doc_getitem (Dataset.metadata_doc ds) "id" with
  | Ok v => doc_eq_str v id
  | Raise _ => false
  end.


(** Not NaN and sign bit clear: zero, a positive number or [+inf]. *)
Definition nonneg (x : float) : Prop := is_nan x = false ∧ sign x = false.

(** A world whose display and plotting calls all return. *)
Definition shows_everything {n} (w : World n) : Prop :=
  (∀ x y, display_map w x y = Ok ()) ∧ (∀ a, plot w a = Ok ()) ∧
  (∀ l, imshow w l = Ok ()) ∧ (∀ ds bands, rgb w ds bands = Ok ()).

(** *** Real values of floating-point numbers *)

Definition bpow (e : Z) : R := powerRZ 2 e.

(** The real number [m * 2^e]. *)
Definition F2R (m e : Z) : R := (IZR m * bpow e)%R.

(** The magnitude of a finite number; [0] for the others. *)
Definition magnitude (x : float) : R :=
  match x with
  | S754_finite _ m e => F2R (Zpos m) e
  | _ => 0%R
  end.

(** [x] lies in [[m, m+1)], at the place the round and sticky flags of the
    record say: on [m], below the middle, on it or above it. *)
Definition inbetween (mrs : shr_record) (x : R) : Prop :=
  0 <= shr_m mrs ∧
  match shr_r mrs, shr_s mrs with
  | false, false => x = IZR (shr_m mrs)
  | false, true => (IZR (shr_m mrs) < x < IZR (shr_m mrs) + / 2)%R
  | true, false => x = (IZR (shr_m mrs) + / 2)%R
  | true, true => (IZR (shr_m mrs) + / 2 < x < IZR (shr_m mrs) + 1)%R
  end.

(** What rounding returns for the sign [s], the mantissa [m] and the
    exponent [e] it ends with. *)
Definition rounded (prec emax : Z) (s : bool) (m e : Z) : float :=
  match m with
  | Z0 => S754_zero s
  | Zpos p => if e <=? emax - prec then S754_finite s p e else S754_infinity s
  | Zneg _ => S754_nan
  end.

(** ** Proof steps for runs *)

(** One step of a run: rewrite with what is known of the calls made so far. *)
Ltac run_step :=
  match goal with
  | H : _ = Ok _ |- _ => rewrite H
  | H : _ = Raise _ |- _ => rewrite H
  end; simpl.

Ltac run := unfold run_all, method1; repeat run_step; try reflexivity.

(** ** Example inputs *)

Definition example_interval : doc :=
  DDict [("begin", DNum (S754_zero true)); ("end", DNum (S754_zero false))].

(** A metadata document with the fields the notebook reads. *)
Definition example_doc : doc :=
  DDict [("id", DStr id); ("label", DStr "S1A_IW_RTC");
         ("extent", DDict [("lat", example_interval); ("lon", example_interval)]);
         ("properties", DDict [("datetime", DStr "2020-01-01T00:00:00Z")])].

Definition example_extent : Extent :=
  {| lat_dict := example_interval; lon_dict := example_interval;
     dt_string := DStr "2020-01-01T00:00:00Z" |}.

Definition example_dataset (t : Z) (u : N) : Dataset.t :=
  Dataset.mk t u example_doc.

(** A dataset whose document carries another identifier. *)
Definition other_dataset : Dataset.t :=
  Dataset.mk 0 0 (DDict [("id", DStr "00000000-0000-0000-0000-000000000000");
                         ("label", DStr "S1B_IW_RTC")]).

(** A dataset whose document has no ['id']. *)
Definition anonymous_dataset : Dataset.t :=
  Dataset.mk 1 1 (DDict [("label", DStr "S1B_IW_RTC")]).

(** A world in which every external call returns: the query finds [found],
    the load gives [s1]. *)
Definition quiet_world {n} (found : list Dataset.t) (s1 : xr_Dataset n) : World n :=
  {| Datacube := λ _, Ok ();
     find_datasets := λ _, Ok found;
     load := λ _ _, Ok s1;
     display_map := λ _ _, Ok ();
     plot := λ _, Ok ();
     imshow := λ _, Ok ();
     rgb := λ _ _, Ok () |}.

(** The same world, except that the last call, the composite renderer,
    raises. *)
Definition no_rgb_world {n} (found : list Dataset.t) (s1 : xr_Dataset n) : World n :=
  {| Datacube := λ _, Ok ();
     find_datasets := λ _, Ok found;
     load := λ _ _, Ok s1;
     display_map := λ _ _, Ok ();
     plot := λ _, Ok ();
     imshow := λ _, Ok ();
     rgb := λ _ _, Raise (LibraryError "rgb") |}.

(** * Properties *)

(** ** The sort of the query result *)

Lemma tuple_lt_false a b : tuple_lt a b = false → tuple_le b a.
Proof.
  unfold tuple_lt, tuple_le. destruct a as [t i], b as [t' i']; simpl.
  destruct (Z.eqb_spec t t') as [->|Hne]; intros H.
  - right. split; [done|]. apply N.ltb_ge in H. lia.
  - left. apply Z.ltb_ge in H. lia.
Qed.

Lemma tuple_lt_true a b : tuple_lt a b = true → tuple_le a b.
Proof.
  unfold tuple_lt, tuple_le. destruct a as [t i], b as [t' i']; simpl.
  destruct (Z.eqb_spec t t') as [->|Hne]; intros H.
  - right. split; [done|]. apply N.ltb_lt in H. lia.
  - left. apply Z.ltb_lt in H. lia.
Qed.

Lemma insert_sorted_perm (x : Dataset.t) l : insert_sorted tuple_lt key x l ≡ₚ x :: l.
Proof.
  induction l as [|y l IH]; simpl; [done|].
  destruct (tuple_lt (key y) (key x)); [|done].
  rewrite IH. apply Permutation_swap.
Qed.

Lemma sorted_perm (l : list Dataset.t) : sorted tuple_lt key l ≡ₚ l.
Proof.
  induction l as [|x l IH]; simpl; [done|].
  unfold sorted in *. simpl. rewrite insert_sorted_perm. by rewrite IH.
Qed.

Lemma insert_sorted_HdRel x y l :
  key_le y x → HdRel key_le y l → HdRel key_le y (insert_sorted tuple_lt key x l).
Proof.
  intros Hyx Hd. destruct l as [|z l]; simpl; [by constructor|].
  destruct (tuple_lt (key z) (key x)); constructor; [|done].
  by inversion Hd.
Qed.

Lemma insert_sorted_Sorted x l :
  Sorted key_le l → Sorted key_le (insert_sorted tuple_lt key x l).
Proof.
  induction 1 as [|y l Hs IH Hd]; simpl; [by repeat constructor|].
  destruct (tuple_lt (key y) (key x)) eqn:Hlt.
  - constructor; [done|]. apply insert_sorted_HdRel; [|done].
    by apply tuple_lt_true.
  - constructor; [by constructor|]. constructor. by apply tuple_lt_false.
Qed.

Lemma sorted_Sorted l : Sorted key_le (sorted tuple_lt key l).
Proof.
  induction l as [|x l IH]; simpl; [constructor|].
  by apply insert_sorted_Sorted.
Qed.

Lemma Sorted_adjacent {A} (R : A → A → Prop) (l : list A) i a b :
  Sorted R l → l !! i = Some a → l !! S i = Some b → R a b.
Proof.
  intros Hs. revert i. induction Hs as [|x l Hs IH Hd]; intros i Ha Hb; [done|].
  destruct i as [|i]; simpl in *.
  - inversion Ha; subst. destruct l as [|y l]; [done|]. simpl in Hb.
    inversion Hb; subst. by inversion Hd.
  - eauto.
Qed.

(** C6: after the query cell, any two neighbours of [senti_datasets] are in
    order of their keys [(center_time, id)]: the earlier element's key is less
    than or equal to the later one's. *)
Theorem senti_datasets_sorted (found : list Dataset.t) (i : nat) (a b : Dataset.t) :
  senti_datasets found !! i = Some a →
  senti_datasets found !! S i = Some b →
  tuple_le (key a) (key b).
Proof.
  intros Ha Hb. exact (Sorted_adjacent key_le _ i a b (sorted_Sorted found) Ha Hb).
Qed.

(** ** The two list indexings *)




Lemma selected_id_Ok_filter senti sel :
  selected_id senti = Ok sel → sel = filter (λ ds, has_id ds = true) senti.
Proof.
  revert sel. induction senti as [|d senti IH]; intros sel H; simpl in H.
  - by inversion H.
  - rewrite filter_cons.
    assert (has_id d = match doc_getitem (Dataset.metadata_doc d) "id" with
                       | Ok v => doc_eq_str v id | Raise _ => false end) as Hd
      by reflexivity.
    destruct (doc_getitem (Dataset.metadata_doc d) "id") as [v|e]; [|done].
    simpl in H. destruct (selected_id senti) as [rest|e]; [|done].
    simpl in H. inversion H; subst; clear H. rewrite <- (IH rest eq_refl).
    rewrite Hd. by destruct (doc_eq_str v id).
Qed.

Lemma selected_id_succeeds senti :
  succeeds (selected_id senti) ↔
  Forall (λ ds, succeeds (doc_getitem (Dataset.metadata_doc ds) "id")) senti.
Proof.
  induction senti as [|d senti IH]; simpl.
  - split; [constructor|]. intros _. by eexists.
  - rewrite Forall_cons, <- IH. unfold succeeds.
    destruct (doc_getitem (Dataset.metadata_doc d) "id") as [v|e]; simpl.
    + destruct (selected_id senti) as [rest|e]; simpl.
      * split; [eauto|]. intros _. eauto.
      * split; [by intros [? ?]|]. by intros [_ [? ?]].
    + split; [by intros [? ?]|]. by intros [[? ?] _].
Qed.

(** The comprehension stops at the first document, in list order, whose
    ['id'] cannot be read, with the error of that lookup. *)
Lemma selected_id_raises before ds after e :
  Forall (λ d, succeeds (doc_getitem (Dataset.metadata_doc d) "id")) before →
  doc_getitem (Dataset.metadata_doc ds) "id" = Raise e →
  selected_id (before ++ ds :: after) = Raise e.
Proof.
  intros Hb He. induction Hb as [|d before [v Hv] _ IH]; simpl.
  - by rewrite He.
  - rewrite Hv. simpl. by rewrite IH.
Qed.



(** * Further properties of the query and the selection *)

(** X1: sorting loses and adds nothing: [senti_datasets] is a permutation of
    the datasets found, with the same length and the same members. *)
Theorem senti_datasets_permutation (found : list Dataset.t) :
  senti_datasets found ≡ₚ found ∧
  length (senti_datasets found) = length found ∧
  ∀ ds, ds ∈ senti_datasets found ↔ ds ∈ found.
Proof.
  pose proof (sorted_perm found) as Hp. fold (senti_datasets found) in Hp.
  split; [exact Hp|]. split; [by apply Permutation_length|].
  intros ds. by rewrite Hp.
Qed.

Lemma tuple_lt_neq a b : tuple_lt a b = true → a ≠ b.
Proof.
  unfold tuple_lt. intros H ->. rewrite Z.eqb_refl in H.
  apply N.ltb_lt in H. lia.
Qed.

Lemma insert_sorted_filter_key (k : Z * N) (x : Dataset.t) l :
  filter (λ ds, key ds = k) (insert_sorted tuple_lt key x l)
  = filter (λ ds, key ds = k) (x :: l).
Proof.
  induction l as [|y l IH]; simpl; [done|].
  destruct (tuple_lt (key y) (key x)) eqn:Hlt; [|done].
  apply tuple_lt_neq in Hlt.
  rewrite (filter_cons _ y), IH, !(filter_cons _ x), (filter_cons _ y).
  destruct (decide (key x = k)) as [Hx|Hx], (decide (key y = k)) as [Hy|Hy];
    try done. congruence.
Qed.

(** X2: the sort is stable: the datasets that share a key [(center_time, id)]
    come out in the order in which the query returned them. *)
Theorem senti_datasets_stable (found : list Dataset.t) (k : Z * N) :
  filter (λ ds, key ds = k) (senti_datasets found)
  = filter (λ ds, key ds = k) found.
Proof.
  unfold senti_datasets, sorted. induction found as [|x l IH]; simpl; [done|].
  rewrite insert_sorted_filter_key, !(filter_cons _ x). by rewrite IH.
Qed.

(** X3: the query cell after a successful query: with fewer than 101 datasets
    it raises [IndexError]; otherwise its sample is element 100 of the sorted
    list, and the cell returns it unless the sample's document has no
    ['label'], whose error it then raises. *)
Theorem locate_outcome {n} (w : World n) (found : list Dataset.t) :
  find_datasets w "s1_rtc" = Ok found →
  ((length found < 101)%nat → locate w = Raise IndexError) ∧
  (∀ sample, senti_datasets found !! 100%nat = Some sample →
     locate w =
     match doc_getitem (Dataset.metadata_doc sample) "label" with
     | Ok _ => Ok (senti_datasets found, sample)
     | Raise e => Raise e
     end).
Proof.
  intros Hf. unfold locate. rewrite Hf. simpl. split.
  - intros Hlen. unfold getitem.
    unfold senti_datasets. rewrite (Permutation_length (sorted_perm found)).
    destruct (Z.ltb_spec 100 0) as [?|_]; [lia|].
    destruct (Z.ltb_spec 100 (Z.of_nat (length found))) as [?|_]; [lia|].
    by rewrite andb_false_r.
  - intros sample Hs. unfold getitem.
    pose proof (lookup_lt_Some _ _ _ Hs) as Hlen.
    destruct (Z.ltb_spec 100 0) as [?|_]; [lia|].
    destruct (Z.ltb_spec 100 (Z.of_nat (length (senti_datasets found)))) as [_|?]; [|lia].
    simpl. change (Z.to_nat 100) with 100%nat. rewrite Hs. simpl.
    by destruct (doc_getitem _ "label").
Qed.

(** X4: the comprehension returns exactly the datasets whose ['id'] is the
    identifier, in the order of [senti_datasets]; it completes exactly when
    every document has an ['id']; and it ends with the error of the first
    document, in list order, whose ['id'] cannot be read, wherever in the
    list that document stands. *)
Theorem selected_id_outcome (senti : list Dataset.t) :
  (∀ sel, selected_id senti = Ok sel → sel = filter (λ ds, has_id ds = true) senti) ∧
  (succeeds (selected_id senti) ↔
   Forall (λ ds, succeeds (doc_getitem (Dataset.metadata_doc ds) "id")) senti) ∧
  (∀ before ds after e,
     senti = before ++ ds :: after →
     Forall (λ d, succeeds (doc_getitem (Dataset.metadata_doc d) "id")) before →
     doc_getitem (Dataset.metadata_doc ds) "id" = Raise e →
     selected_id senti = Raise e).
Proof.
  split; [apply selected_id_Ok_filter|]. split; [apply selected_id_succeeds|].
  intros before ds after e -> Hb He. by apply selected_id_raises.
Qed.

Section Run.
Context (prec emax : Z) {n : nat}.

(** X5: when every dataset carries an ['id'] other than the hard-coded one, the
    selection is empty and the run stops with [IndexError] at
    [selected_id[0]], although the raster itself was loaded. *)
Theorem run_all_unknown_id (w : World n) senti sample s1 :
  Datacube w "Sentinel-1 example" = Ok () →
  locate w = Ok (senti, sample) →
  load w "s1_rtc" id = Ok s1 →
  Forall (λ ds, ∃ v, doc_getitem (Dataset.metadata_doc ds) "id" = Ok v ∧
                     doc_eq_str v id = false) senti →
  selected_id senti = Ok [] ∧ run_all prec emax w = Raise IndexError.
Proof.
  intros Hdc Hloc Hl Hall.
  assert (selected_id senti = Ok []) as Hsel.
  { clear Hloc. induction senti as [|d senti IH]; [done|].
    apply Forall_cons in Hall as [(v & Hv & Hne) Hall]. simpl.
    rewrite Hv. simpl. rewrite (IH Hall). simpl. by rewrite Hne. }
  split; [done|]. unfold run_all. rewrite Hdc. simpl. rewrite Hloc. simpl.
  rewrite Hl. simpl. by rewrite Hsel.
Qed.
End Run.

(** * Sums and means *)

Section Sums.
Context (prec emax : Z).

Lemma adds_up_perm l l' s : adds_up prec emax l s → l ≡ₚ l' → adds_up prec emax l' s.
Proof.
  intros H Hp. destruct H as [|x|l l1 l2 a b Ha Hb Hl].
  - apply Permutation_nil_l in Hp. subst. constructor.
  - apply Permutation_singleton_l in Hp. subst. constructor.
  - eapply adds_add; [exact Ha|exact Hb|]. by rewrite <- Hp.
Qed.

Lemma adds_up_app l1 l2 a b :
  adds_up prec emax l1 a → adds_up prec emax l2 b →
  adds_up prec emax (l1 ++ l2) (SFadd prec emax a b).
Proof. intros Ha Hb. by eapply adds_add. Qed.

Lemma add_each_adds_up l0 acc l :
  adds_up prec emax l0 acc → adds_up prec emax (l0 ++ l) (add_each prec emax acc l).
Proof.
  unfold add_each. revert l0 acc. induction l as [|x l IH]; intros l0 acc H; simpl.
  - by rewrite app_nil_r.
  - replace (l0 ++ x :: l) with ((l0 ++ [x]) ++ l) by (by rewrite <- app_assoc).
    apply IH. apply adds_up_app; [done|constructor].
Qed.

Lemma add_lanes_step (ls : list (list spec_float)) r c :
  Forall2 (adds_up prec emax) ls r → length c = length r →
  Forall2 (adds_up prec emax) (zip_with (λ l x, l ++ [x]) ls c)
          (zip_with (SFadd prec emax) r c) ∧
  concat (zip_with (λ l x, l ++ [x]) ls c) ≡ₚ concat ls ++ c.
Proof.
  intros H. revert c. induction H as [|l a ls r Hl _ IH]; intros c Hc.
  - destruct c; [|done]. split; [constructor|done].
  - destruct c as [|x c]; [done|]. simpl in Hc. injection Hc as Hc.
    destruct (IH c Hc) as [IH1 IH2]. simpl. split.
    + constructor; [|done]. apply adds_up_app; [done|constructor].
    + rewrite IH2. rewrite <- !app_assoc. apply Permutation_app_head.
      simpl. rewrite (Permutation_middle (concat ls) c x). done.
Qed.

Lemma add_lanes_adds_up k : ∀ (ls : list (list spec_float)) r l r' rest,
  Forall2 (adds_up prec emax) ls r → length r = 8%nat → (8 * k ≤ length l)%nat →
  add_lanes prec emax k r l = (r', rest) →
  ∃ ls', Forall2 (adds_up prec emax) ls' r' ∧ length r' = 8%nat ∧
         concat ls' ≡ₚ concat ls ++ take (8 * k) l ∧ rest = drop (8 * k) l.
Proof.
  induction k as [|k IH]; intros ls r l r' rest Hls Hr Hl Heq; simpl in Heq.
  - injection Heq as <- <-. exists ls. rewrite Nat.mul_0_r, take_0, drop_0, app_nil_r.
    done.
  - assert (length (take 8 l) = length r) as Hc by (rewrite length_take; lia).
    destruct (add_lanes_step ls r (take 8 l) Hls Hc) as [H1 H2].
    assert (length (zip_with (SFadd prec emax) r (take 8 l)) = 8%nat) as Hz
      by (rewrite length_zip_with, length_take; lia).
    assert (8 * k ≤ length (drop 8 l))%nat as Hd by (rewrite length_drop; lia).
    destruct (IH _ _ _ _ _ H1 Hz Hd Heq) as (ls' & F & L & P & D).
    exists ls'. split; [done|]. split; [done|]. split.
    + rewrite P, H2, <- app_assoc. apply Permutation_app_head.
      replace (8 * S k)%nat with (8 + 8 * k)%nat by lia.
      rewrite <- (take_drop 8 (take (8 + 8 * k) l)).
      rewrite take_take, Nat.min_l by lia.
      by rewrite <- take_drop_commute.
    + rewrite D, drop_drop. f_equal. lia.
Qed.

Lemma add_tree_adds_up (ls : list (list spec_float)) r :
  Forall2 (adds_up prec emax) ls r → length r = 8%nat →
  adds_up prec emax (concat ls) (add_tree prec emax r).
Proof.
  intros H Hr.
  do 8 (destruct H as [|? ? ? ? ? H]; [done|]). destruct H; [|done].
  simpl. rewrite app_nil_r.
  eapply adds_add.
  - apply adds_up_app; apply adds_up_app; eassumption.
  - apply adds_up_app; apply adds_up_app; eassumption.
  - by rewrite <- !app_assoc.
Qed.

Lemma block_sum_adds_up l :
  (8 ≤ length l)%nat → adds_up prec emax l (block_sum prec emax l).
Proof.
  intros Hl. unfold block_sum.
  destruct (add_lanes prec emax (length l / 8 - 1) (take 8 l) (drop 8 l))
    as [r rest] eqn:E.
  assert (8 * (length l / 8) ≤ length l)%nat as Hdiv
    by (apply Nat.Div0.mul_div_le).
  assert (1 ≤ length l / 8)%nat as Hq by (apply Nat.div_le_lower_bound; lia).
  assert (Forall2 (adds_up prec emax) ((λ x, [x]) <$> take 8 l) (take 8 l)) as H0.
  { apply Forall2_fmap_l, Forall_Forall2_diag, Forall_forall. intros; constructor. }
  assert (length (take 8 l) = 8%nat) as H8 by (rewrite length_take; lia).
  assert (8 * (length l / 8 - 1) ≤ length (drop 8 l))%nat as Hd
    by (rewrite length_drop; lia).
  destruct (add_lanes_adds_up _ _ _ _ _ _ H0 H8 Hd E) as (ls' & F & L & P & D).
  eapply adds_up_perm; [apply add_each_adds_up, add_tree_adds_up; eassumption|].
  rewrite P, D. rewrite <- app_assoc, take_drop.
  assert (concat ((λ x : spec_float, [x]) <$> take 8 l) = take 8 l) as ->.
  { generalize (take 8 l). intros t. induction t as [|x t IH]; [done|].
    rewrite fmap_cons. cbn [concat app]. by rewrite IH. }
  by rewrite take_drop.
Qed.

Lemma pairwise_sum_adds_up fuel : ∀ l,
  (length l ≤ fuel + 128)%nat → adds_up prec emax l (pairwise_sum prec emax fuel l).
Proof.
  induction fuel as [|fuel IH]; intros l Hl; simpl.
  - case_bool_decide; [apply (add_each_adds_up [] _ l); constructor|].
    case_bool_decide; [apply block_sum_adds_up; lia|lia].
  - case_bool_decide; [apply (add_each_adds_up [] _ l); constructor|].
    case_bool_decide; [apply block_sum_adds_up; lia|].
    set (n2 := (length l / 2 - (length l / 2) mod 8)%nat).
    assert (length l / 2 ≤ length l - 1)%nat as Hhalf
      by (apply Nat.Div0.div_le_upper_bound; lia).
    assert (64 ≤ length l / 2)%nat as Hq by (apply Nat.div_le_lower_bound; lia).
    assert ((length l / 2) mod 8 < 8)%nat as Hm by (apply Nat.mod_upper_bound; lia).
    eapply adds_add; [apply (IH (take n2 l))|apply (IH (drop n2 l))|by rewrite take_drop].
    + rewrite length_take. lia.
    + rewrite length_drop. lia.
Qed.

(** The sum is one way of adding up the pixels (and zeros). *)
Lemma sum_adds_up a : adds_up prec emax a (sum prec emax a).
Proof.
  unfold sum. apply (adds_add _ _ a [] a); [constructor| |done].
  apply pairwise_sum_adds_up. lia.
Qed.


End Sums.

(** * The derived channels *)

Section Channels.
Context (prec emax : Z) {n : nat}.

Lemma add_channels_Ok (s1 : xr_Dataset n) vv vh :
  s1 !! "vv" = Some vv → s1 !! "vh" = Some vh →
  add_channels prec emax s1 = Ok (with_channels prec emax s1 vv vh).
Proof.
  intros Hvv Hvh. unfold add_channels, getattr, setitem.
  rewrite Hvv, Hvh. simpl.
  rewrite !lookup_insert_ne by done. rewrite Hvh, Hvv. simpl.
  rewrite !lookup_insert_ne by done. rewrite Hvv. simpl.
  rewrite !lookup_insert_ne by done. rewrite Hvh. simpl.
  rewrite lookup_insert_ne by done. rewrite lookup_insert_ne by done.
  rewrite lookup_insert_eq. simpl. reflexivity.
Qed.

Lemma add_channels_inv (s1 s1' : xr_Dataset n) :
  add_channels prec emax s1 = Ok s1' →
  ∃ vv vh, s1 !! "vv" = Some vv ∧ s1 !! "vh" = Some vh
           ∧ s1' = with_channels prec emax s1 vv vh.
Proof.
  intros H.
  destruct (s1 !! "vv") as [vv|] eqn:Hvv;
    [|by unfold add_channels, getattr in H; rewrite Hvv in H].
  destruct (s1 !! "vh") as [vh|] eqn:Hvh;
    [|by unfold add_channels, getattr in H; rewrite Hvv, Hvh in H].
  exists vv, vh. rewrite (add_channels_Ok _ _ _ Hvv Hvh) in H. by inversion H.
Qed.

Lemma with_channels_lookup (s1 : xr_Dataset n) vv vh :
  let s1' := with_channels prec emax s1 vv vh in
  let vh_vv := vzip_with (SFdiv prec emax) vh vv in
  s1' !! "vv_vh" = Some (vzip_with (SFdiv prec emax) vv vh) ∧
  s1' !! "vh_vv" = Some vh_vv ∧
  s1' !! "vv_r" = Some (truediv_scalar prec emax vv (mean prec emax vv)) ∧
  s1' !! "vh_g" = Some (truediv_scalar prec emax vh (mean prec emax vh)) ∧
  s1' !! "vhvv_b" = Some (truediv_scalar prec emax vh_vv (mean prec emax vh_vv)).
Proof.
  unfold with_channels, truediv. repeat split;
    repeat (rewrite lookup_insert_ne by done); by rewrite lookup_insert_eq.
Qed.

Lemma with_channels_frame (s1 : xr_Dataset n) vv vh k :
  k ∉ derived_names → with_channels prec emax s1 vv vh !! k = s1 !! k.
Proof.
  unfold derived_names, with_channels. intros Hk.
  rewrite !not_elem_of_union, !not_elem_of_singleton in Hk.
  destruct Hk as [[[[? ?] ?] ?] ?]. by rewrite !lookup_insert_ne.
Qed.

Lemma with_channels_vv_vh (s1 : xr_Dataset n) vv vh :
  with_channels prec emax s1 vv vh !! "vv" = s1 !! "vv" ∧
  with_channels prec emax s1 vv vh !! "vh" = s1 !! "vh".
Proof. unfold with_channels. by rewrite !lookup_insert_ne. Qed.

Lemma with_channels_dom (s1 : xr_Dataset n) vv vh :
  dom (with_channels prec emax s1 vv vh) = dom s1 ∪ derived_names.
Proof.
  unfold with_channels, derived_names. rewrite !dom_insert_L.
  apply set_eq. intros k. rewrite !elem_of_union, !elem_of_singleton. tauto.
Qed.

Lemma size_derived_names : size derived_names = 5%nat.
Proof. reflexivity. Qed.

(** Both ratio channels, pixel by pixel. *)
Lemma ratio_pixels (s1 s1' : xr_Dataset n) i x y :
  add_channels prec emax s1 = Ok s1' →
  pixel s1 "vv" i = Some x → pixel s1 "vh" i = Some y →
  pixel s1' "vv_vh" i = Some (SFdiv prec emax x y) ∧
  pixel s1' "vh_vv" i = Some (SFdiv prec emax y x).
Proof.
  intros (vv & vh & Hvv & Hvh & ->)%add_channels_inv.
  unfold pixel. rewrite Hvv, Hvh. simpl. intros Hx Hy.
  destruct (with_channels_lookup s1 vv vh) as (-> & -> & _). simpl.
  rewrite !vec_to_list_zip_with, !lookup_zip_with, Hx, Hy. done.
Qed.

Lemma SFdiv_nan_den x : SFdiv prec emax x S754_nan = S754_nan.
Proof. by destruct x. Qed.

Lemma SFdiv_zero_den x s :
  SFdiv prec emax x (S754_zero s) =
  if is_nan x || is_zero x then S754_nan else S754_infinity (xorb (sign x) s).
Proof. by destruct x. Qed.

(** C1: at every pixel, the derived ratio channels hold the quotient of the
    two backscatter bands: [vh_vv = vh / vv] where [vv] is not zero, and
    [vv_vh = vv / vh] where [vh] is not zero. *)
Theorem ratio_channels_divide (s1 s1' : xr_Dataset n) i x y :
  add_channels prec emax s1 = Ok s1' →
  pixel s1 "vv" i = Some x → pixel s1 "vh" i = Some y →
  (is_zero x = false → pixel s1' "vh_vv" i = Some (SFdiv prec emax y x)) ∧
  (is_zero y = false → pixel s1' "vv_vh" i = Some (SFdiv prec emax x y)).
Proof.
  intros H Hx Hy. destruct (ratio_pixels _ _ _ _ _ H Hx Hy) as [H1 H2]. done.
Qed.

(** C4, as amended: a missing (NaN) denominator gives NaN in the ratio
    channel; a zero denominator gives NaN only when the numerator is itself
    zero or NaN, and otherwise an infinity whose sign is the exclusive or of
    the two signs.  Both for [vv_vh] (denominator [vh]) and for [vh_vv]
    (denominator [vv]). *)
Theorem zero_or_missing_denominator (s1 s1' : xr_Dataset n) i x y :
  add_channels prec emax s1 = Ok s1' →
  pixel s1 "vv" i = Some x → pixel s1 "vh" i = Some y →
  (is_nan y = true → pixel s1' "vv_vh" i = Some S754_nan) ∧
  (is_nan x = true → pixel s1' "vh_vv" i = Some S754_nan) ∧
  (is_zero y = true →
     pixel s1' "vv_vh" i =
     Some (if is_nan x || is_zero x then S754_nan
           else S754_infinity (xorb (sign x) (sign y)))) ∧
  (is_zero x = true →
     pixel s1' "vh_vv" i =
     Some (if is_nan y || is_zero y then S754_nan
           else S754_infinity (xorb (sign y) (sign x)))).
Proof.
  intros H Hx Hy. destruct (ratio_pixels _ _ _ _ _ H Hx Hy) as [-> ->].
  repeat split; intros Hd.
  - destruct y; try done. by rewrite SFdiv_nan_den.
  - destruct x; try done. by rewrite SFdiv_nan_den.
  - destruct y; try done. by rewrite SFdiv_zero_den.
  - destruct x; try done. by rewrite SFdiv_zero_den.
Qed.

(** C7: the cell leaves the two measurement bands as they were loaded, as
    arrays and so at every pixel. *)
Theorem originals_unchanged (s1 s1' : xr_Dataset n) :
  add_channels prec emax s1 = Ok s1' →
  s1' !! "vv" = s1 !! "vv" ∧ s1' !! "vh" = s1 !! "vh" ∧
  ∀ i, pixel s1' "vv" i = pixel s1 "vv" i ∧ pixel s1' "vh" i = pixel s1 "vh" i.
Proof.
  intros (vv & vh & Hvv & Hvh & ->)%add_channels_inv.
  destruct (with_channels_vv_vh s1 vv vh) as [E1 E2].
  unfold pixel. rewrite E1, E2. done.
Qed.

(** C5, as amended: the cell stores exactly five derived channels, the two
    ratios [vv_vh] and [vh_vv] and the three mean-normalised channels
    [vv_r], [vh_g] and [vhvv_b]; every other variable of the raster is left
    as it was. *)
Theorem five_derived_channels (s1 s1' : xr_Dataset n) :
  add_channels prec emax s1 = Ok s1' →
  dom s1' = dom s1 ∪ derived_names ∧
  size derived_names = 5%nat ∧
  (∀ k, k ∉ derived_names → s1' !! k = s1 !! k) ∧
  ∃ vv vh vh_vv,
    s1 !! "vv" = Some vv ∧ s1 !! "vh" = Some vh ∧
    s1' !! "vv_vh" = Some (vzip_with (SFdiv prec emax) vv vh) ∧
    vh_vv = vzip_with (SFdiv prec emax) vh vv ∧
    s1' !! "vh_vv" = Some vh_vv ∧
    s1' !! "vv_r" = Some (truediv_scalar prec emax vv (mean prec emax vv)) ∧
    s1' !! "vh_g" = Some (truediv_scalar prec emax vh (mean prec emax vh)) ∧
    s1' !! "vhvv_b" = Some (truediv_scalar prec emax vh_vv (mean prec emax vh_vv)).
Proof.
  intros (vv & vh & Hvv & Hvh & ->)%add_channels_inv.
  split; [apply with_channels_dom|]. split; [apply size_derived_names|].
  split; [intros k; apply with_channels_frame|].
  exists vv, vh, (vzip_with (SFdiv prec emax) vh vv).
  destruct (with_channels_lookup s1 vv vh) as (? & ? & ? & ? & ?). done.
Qed.


(** C9: method 2 of the composite recomputes the channels of method 1:
    [red_arr], [green_arr] and [blue_arr] are the stored [vv_r], [vh_g] and
    [vhvv_b], pixel for pixel, when no source band holds an infinity. *)
Theorem composites_agree (s1 s1' : xr_Dataset n) :
  add_channels prec emax s1 = Ok s1' →
  (∀ k a, k ∈ ["vv"; "vh"; "vh_vv"] → s1' !! k = Some a →
          Forall (λ x, is_inf x = false) (vec_to_list a)) →
  ∃ c, method2 prec emax s1' = Ok c ∧
       s1' !! "vv_r" = Some (red_arr c) ∧
       s1' !! "vh_g" = Some (green_arr c) ∧
       s1' !! "vhvv_b" = Some (blue_arr c) ∧
       ∀ i, pixel s1' "vv_r" i = vec_to_list (red_arr c) !! i ∧
            pixel s1' "vh_g" i = vec_to_list (green_arr c) !! i ∧
            pixel s1' "vhvv_b" i = vec_to_list (blue_arr c) !! i.
Proof.
  intros (vv & vh & Hvv & Hvh & ->)%add_channels_inv _.
  destruct (with_channels_lookup s1 vv vh) as (_ & Hq & Hr & Hg & Hb).
  destruct (with_channels_vv_vh s1 vv vh) as [E1 E2].
  rewrite Hvv in E1. rewrite Hvh in E2.
  unfold method2, getattr. rewrite E1, E2, Hq. simpl.
  eexists. split; [reflexivity|]. simpl. unfold pixel. rewrite Hr, Hg, Hb. done.
Qed.
End Channels.

(** * Signs of rounded results, and sums of zeros and infinities *)

Section Signs.
Context (prec emax : Z).

Lemma shr_1_nonneg mrs : 0 <= shr_m mrs → 0 <= shr_m (shr_1 mrs).
Proof. destruct mrs as [[|[p|p|]|p] r s]; simpl; lia. Qed.

Lemma iter_pos_shr_1_nonneg p mrs :
  0 <= shr_m mrs → 0 <= shr_m (SpecFloat.iter_pos shr_1 p mrs).
Proof.
  revert mrs. induction p as [p IH|p IH|]; intros mrs H; simpl.
  - apply IH, IH. by apply shr_1_nonneg.
  - by apply IH, IH.
  - by apply shr_1_nonneg.
Qed.

Lemma shr_fexp_nonneg m e l :
  0 <= m → 0 <= shr_m (shr_fexp prec emax m e l).1.
Proof.
  intros Hm. unfold shr_fexp, shr.
  assert (0 <= shr_m (shr_record_of_loc m l)) as H0 by (by destruct l as [|[]]).
  destruct (fexp prec emax (Zdigits2 m + e) - e); simpl; try done.
  by apply iter_pos_shr_1_nonneg.
Qed.

Lemma round_nearest_even_nonneg m l : 0 <= m → 0 <= round_nearest_even m l.
Proof. intros Hm. destruct l as [|[]]; simpl; try done; [case (Z.even m)|]; lia. Qed.

(** Rounding a non-negative mantissa never gives NaN and keeps the sign. *)
Lemma binary_round_aux_sign s m e l :
  0 <= m →
  is_nan (binary_round_aux prec emax s m e l) = false ∧
  sign (binary_round_aux prec emax s m e l) = s.
Proof.
  intros Hm. unfold binary_round_aux.
  pose proof (shr_fexp_nonneg m e l Hm) as H1.
  destruct (shr_fexp prec emax m e l) as [mrs' e'].
  pose proof (shr_fexp_nonneg _ e' loc_Exact
                (round_nearest_even_nonneg _ (loc_of_shr_record mrs') H1)) as H2.
  destruct (shr_fexp prec emax _ e' loc_Exact) as [mrs'' e'']. simpl in H2.
  destruct (shr_m mrs'') as [|p|p]; simpl; [done| |lia].
  by case (e'' <=? emax - prec).
Qed.

Lemma SFdiv_core_binary_nonneg mx ex my ey :
  0 <= (SFdiv_core_binary prec emax (Zpos mx) ex (Zpos my) ey).1.1.
Proof.
  unfold SFdiv_core_binary.
  set (s := _ - _ - Z.min _ _).
  set (m' := match s with Z0 => Zpos mx | Zpos _ => Z.shiftl (Zpos mx) s | Zneg _ => 0 end).
  assert (0 <= m') as Hm'.
  { subst m'. destruct s; [lia| |lia]. apply Z.shiftl_nonneg. lia. }
  pose proof (Z.div_pos m' (Zpos my) Hm' ltac:(lia)) as Hq.
  unfold Z.div in Hq. by destruct (Z.div_eucl m' (Zpos my)).
Qed.

(** A quotient that is finite and not zero comes from two such numbers, and
    its sign is the exclusive or of theirs. *)
Lemma SFdiv_finite_nonzero x y :
  finite_nonzero (SFdiv prec emax x y) = true →
  finite_nonzero x = true ∧ finite_nonzero y = true ∧
  sign (SFdiv prec emax x y) = xorb (sign x) (sign y).
Proof.
  destruct x as [sx|sx| |sx mx ex], y as [sy|sy| |sy my ey]; try done.
  intros _. split; [done|]. split; [done|]. simpl.
  pose proof (SFdiv_core_binary_nonneg mx ex my ey) as Hq.
  destruct (SFdiv_core_binary prec emax (Zpos mx) ex (Zpos my) ey) as [[mz ez] lz].
  by apply binary_round_aux_sign.
Qed.

Lemma binary_round_sign s m e :
  is_nan (binary_round prec emax s m e) = false ∧
  sign (binary_round prec emax s m e) = s.
Proof.
  unfold binary_round. destruct (shl_align m e _) as [mz ez].
  by apply binary_round_aux_sign.
Qed.

Lemma SFadd_nonneg x y : nonneg x → nonneg y → nonneg (SFadd prec emax x y).
Proof.
  unfold nonneg.
  destruct x as [sx|sx| |sx mx ex], y as [sy|sy| |sy my ey]; simpl;
    intros [? ?] [? ?]; subst; try done.
  apply binary_round_sign.
Qed.

Lemma SFadd_inf_l y : nonneg y → SFadd prec emax (S754_infinity false) y = S754_infinity false.
Proof. unfold nonneg. destruct y as [s|s| |s m e]; simpl; intros [? ?]; subst; done. Qed.

Lemma SFadd_inf_r x : nonneg x → SFadd prec emax x (S754_infinity false) = S754_infinity false.
Proof. unfold nonneg. destruct x as [s|s| |s m e]; simpl; intros [? ?]; subst; done. Qed.

Lemma adds_up_zeros l s :
  adds_up prec emax l s → Forall (λ x, x = pos_zero) l → s = pos_zero.
Proof.
  induction 1 as [|x|l l1 l2 a b _ IH1 _ IH2 Hp]; intros Hall.
  - done.
  - by inversion Hall.
  - rewrite Hp in Hall. apply Forall_app in Hall as [H1 H2].
    rewrite (IH1 H1), (IH2 H2). reflexivity.
Qed.

Lemma adds_up_nonneg l s :
  adds_up prec emax l s → Forall nonneg l → nonneg s.
Proof.
  induction 1 as [|x|l l1 l2 a b _ IH1 _ IH2 Hp]; intros Hall.
  - done.
  - by inversion Hall.
  - rewrite Hp in Hall. apply Forall_app in Hall as [H1 H2].
    apply SFadd_nonneg; auto.
Qed.

Lemma adds_up_inf l s :
  adds_up prec emax l s → Forall nonneg l → S754_infinity false ∈ l →
  s = S754_infinity false.
Proof.
  induction 1 as [|x|l l1 l2 a b Ha IH1 Hb IH2 Hp]; intros Hall Hin.
  - by apply elem_of_nil in Hin.
  - apply list_elem_of_singleton in Hin. by subst.
  - rewrite Hp in Hall, Hin. apply Forall_app in Hall as [H1 H2].
    apply elem_of_app in Hin as [Hin|Hin].
    + rewrite (IH1 H1 Hin). apply SFadd_inf_l. by eapply adds_up_nonneg.
    + rewrite (IH2 H2 Hin). apply SFadd_inf_r. by eapply adds_up_nonneg.
Qed.

Lemma sum_zeros k : sum prec emax (replicate k pos_zero) = pos_zero.
Proof.
  apply (adds_up_zeros (replicate k pos_zero)); [apply sum_adds_up|].
  apply Forall_replicate. done.
Qed.

Lemma sum_with_infinity a :
  Forall nonneg a → S754_infinity false ∈ a → sum prec emax a = S754_infinity false.
Proof. intros Hall Hin. eapply adds_up_inf; [apply sum_adds_up|done|done]. Qed.

Lemma replace_nan_all_nan a :
  Forall (λ x, is_nan x = true) a → replace_nan a = replicate (length a) pos_zero.
Proof.
  induction 1 as [|x a Hx _ IH]; [done|]. unfold replace_nan in *.
  rewrite fmap_cons, Hx, IH. done.
Qed.

Lemma count_not_nan_all_nan a :
  Forall (λ x, is_nan x = true) a → count_not_nan a = 0%nat.
Proof.
  unfold count_not_nan. induction 1 as [|x a Hx _ IH]; [done|].
  rewrite filter_cons. destruct (decide (is_nan x = false)); [congruence|done].
Qed.

Lemma nanmean_all_nan a :
  Forall (λ x, is_nan x = true) a → nanmean prec emax a = S754_nan.
Proof.
  intros H. unfold nanmean.
  rewrite (count_not_nan_all_nan a H), (replace_nan_all_nan a H), sum_zeros. done.
Qed.

Lemma replace_nan_nonneg a :
  Forall (λ x, is_nan x = true ∨ sign x = false) a → Forall nonneg (replace_nan a).
Proof.
  unfold replace_nan. induction 1 as [|x a Hx _ IH]; [constructor|].
  rewrite fmap_cons. constructor; [|exact IH].
  unfold nonneg. destruct x as [s|s| |s m e]; simpl in *;
    destruct Hx as [?|?]; by subst.
Qed.

Lemma replace_nan_keeps_inf a :
  S754_infinity false ∈ a → S754_infinity false ∈ replace_nan a.
Proof.
  intros H. unfold replace_nan.
  change (S754_infinity false)
    with ((λ x, if is_nan x then pos_zero else x) (S754_infinity false)).
  by apply list_elem_of_fmap_2.
Qed.

Lemma mean_with_infinity a :
  Forall (λ x, is_nan x = true ∨ sign x = false) a →
  S754_infinity false ∈ a →
  finite_nonzero (of_Z prec emax (Z.of_nat (count_not_nan a))) = true →
  mean prec emax a = S754_infinity false.
Proof.
  intros Hall Hin Hc. unfold mean, nanmean.
  rewrite (sum_with_infinity _ (replace_nan_nonneg a Hall) (replace_nan_keeps_inf a Hin)).
  assert (sign (of_Z prec emax (Z.of_nat (count_not_nan a))) = false) as Hs.
  { unfold of_Z, binary_normalize. destruct (Z.of_nat (count_not_nan a)) eqn:E; [done| |lia].
    apply binary_round_sign. }
  destruct (of_Z prec emax _) as [| | |s m e]; try done. simpl in Hs. by subst.
Qed.
End Signs.

(** * The derivation cell as a whole *)

Section Derivation.
Context (prec emax : Z) {n : nat}.

(** X6: what the derivation cell does on any raster: [AttributeError] for a
    missing [vv], then for a missing [vh]; otherwise it returns the raster
    with the five channels added.  The divisions themselves never raise. *)
Theorem add_channels_outcome (s1 : xr_Dataset n) :
  add_channels prec emax s1 =
  match s1 !! "vv", s1 !! "vh" with
  | None, _ => Raise (AttributeError "vv")
  | Some _, None => Raise (AttributeError "vh")
  | Some vv, Some vh => Ok (with_channels prec emax s1 vv vh)
  end.
Proof.
  destruct (s1 !! "vv") as [vv|] eqn:Hvv; [|by unfold add_channels, getattr; rewrite Hvv].
  destruct (s1 !! "vh") as [vh|] eqn:Hvh;
    [|by unfold add_channels, getattr; rewrite Hvv, Hvh].
  by apply add_channels_Ok.
Qed.

(** X8: running the derivation cell a second time changes nothing. *)
Theorem add_channels_idempotent (s1 s1' : xr_Dataset n) :
  add_channels prec emax s1 = Ok s1' → add_channels prec emax s1' = Ok s1'.
Proof.
  intros (vv & vh & Hvv & Hvh & ->)%add_channels_inv.
  destruct (with_channels_vv_vh prec emax s1 vv vh) as [E1 E2].
  rewrite Hvv in E1. rewrite Hvh in E2.
  rewrite (add_channels_Ok prec emax _ vv vh E1 E2). f_equal.
  unfold with_channels at 1.
  destruct (with_channels_lookup prec emax s1 vv vh) as (H1 & H2 & H3 & H4 & H5).
  apply map_eq. intros k. unfold truediv.
  destruct (decide (k = "vhvv_b")) as [->|N5]; [by rewrite lookup_insert_eq|].
  rewrite lookup_insert_ne by done.
  destruct (decide (k = "vh_g")) as [->|N4]; [by rewrite lookup_insert_eq|].
  rewrite lookup_insert_ne by done.
  destruct (decide (k = "vv_r")) as [->|N3]; [by rewrite lookup_insert_eq|].
  rewrite lookup_insert_ne by done.
  destruct (decide (k = "vh_vv")) as [->|N2]; [by rewrite lookup_insert_eq|].
  rewrite lookup_insert_ne by done.
  destruct (decide (k = "vv_vh")) as [->|N1]; [by rewrite lookup_insert_eq|].
  by rewrite lookup_insert_ne.
Qed.

(** X9: a pixel that is NaN in [vv] is NaN in [vv_r], in both ratios and in
    [vhvv_b]; likewise a NaN pixel of [vh] in [vh_g], both ratios and
    [vhvv_b]. *)
Theorem nan_pixels_stay_nan (s1 s1' : xr_Dataset n) i :
  add_channels prec emax s1 = Ok s1' →
  (pixel s1 "vv" i = Some S754_nan →
     pixel s1' "vv_r" i = Some S754_nan ∧
     pixel s1' "vv_vh" i = Some S754_nan ∧
     pixel s1' "vh_vv" i = Some S754_nan ∧
     pixel s1' "vhvv_b" i = Some S754_nan) ∧
  (pixel s1 "vh" i = Some S754_nan →
     pixel s1' "vh_g" i = Some S754_nan ∧
     pixel s1' "vv_vh" i = Some S754_nan ∧
     pixel s1' "vh_vv" i = Some S754_nan ∧
     pixel s1' "vhvv_b" i = Some S754_nan).
Proof.
  intros (vv & vh & Hvv & Hvh & ->)%add_channels_inv.
  destruct (with_channels_lookup prec emax s1 vv vh) as (H1 & H2 & H3 & H4 & H5).
  unfold pixel. rewrite Hvv, Hvh, H1, H2, H3, H4, H5. simpl.
  unfold truediv_scalar.
  rewrite !vec_to_list_map, !vec_to_list_zip_with, !list_lookup_fmap, !lookup_zip_with.
  split; intros Hn.
  - destruct (lookup_lt_is_Some_2 (vec_to_list vh) i) as [y Hy].
    { apply lookup_lt_Some in Hn. by rewrite length_vec_to_list in *. }
    rewrite Hn, Hy. simpl. by rewrite SFdiv_nan_den.
  - destruct (lookup_lt_is_Some_2 (vec_to_list vv) i) as [x Hx].
    { apply lookup_lt_Some in Hn. by rewrite length_vec_to_list in *. }
    rewrite Hn, Hx. simpl. by rewrite SFdiv_nan_den.
Qed.

(** X10: a band with no pixel other than NaN (or no pixel at all) has mean NaN,
    and its normalised channel is NaN everywhere. *)
Theorem all_nan_band (s1 s1' : xr_Dataset n) (vv : DataArray n) :
  add_channels prec emax s1 = Ok s1' →
  s1 !! "vv" = Some vv → Forall (λ x, is_nan x = true) (vec_to_list vv) →
  mean prec emax vv = S754_nan ∧
  s1' !! "vv_r" = Some (vreplicate n S754_nan).
Proof.
  intros (vv0 & vh & Hvv & Hvh & ->)%add_channels_inv Hvv' Hall.
  rewrite Hvv in Hvv'. injection Hvv' as ->.
  destruct (with_channels_lookup prec emax s1 vv vh) as (_ & _ & H3 & _).
  unfold mean in *. rewrite H3, (nanmean_all_nan prec emax _ Hall). split; [done|]. f_equal.
  unfold truediv_scalar. apply vec_eq. intros i.
  rewrite vlookup_map, vlookup_replicate. apply SFdiv_nan_den.
Qed.

(** X11: one [+inf] in a ratio band without negative values makes its mean
    [+inf] (the count being an ordinary number), so [vhvv_b] is [+0] at every
    finite pixel and NaN elsewhere. *)
Theorem infinite_mean_flattens (s1 s1' : xr_Dataset n) (vh_vv : DataArray n) i x :
  add_channels prec emax s1 = Ok s1' →
  s1' !! "vh_vv" = Some vh_vv →
  Forall (λ x, is_nan x = true ∨ sign x = false) (vec_to_list vh_vv) →
  S754_infinity false ∈ vec_to_list vh_vv →
  finite_nonzero (of_Z prec emax (Z.of_nat (count_not_nan vh_vv))) = true →
  vec_to_list vh_vv !! i = Some x →
  mean prec emax vh_vv = S754_infinity false ∧
  pixel s1' "vhvv_b" i = Some (if is_finite x then S754_zero false else S754_nan).
Proof.
  intros (vv & vh & Hvv & Hvh & ->)%add_channels_inv Hq Hall Hin Hc Hx.
  destruct (with_channels_lookup prec emax s1 vv vh) as (_ & H2 & _ & _ & H5).
  rewrite H2 in Hq. injection Hq as Hq. rewrite Hq in H5.
  pose proof (mean_with_infinity prec emax _ Hall Hin Hc) as Hm. split; [done|].
  unfold pixel. rewrite H5. simpl. unfold truediv_scalar.
  rewrite vec_to_list_map, list_lookup_fmap, Hx, Hm. simpl. f_equal.
  rewrite Forall_forall in Hall. specialize (Hall x (list_elem_of_lookup_2 _ _ _ Hx)).
  destruct x as [s|s| |s m e]; simpl in *; try done; destruct Hall as [?|?]; by subst.
Qed.
End Derivation.

(** * Exceptions and the whole run *)

Section Exceptions.
Context (prec emax : Z) {n : nat}.

(** Method 2 returns on every raster that the derivation cell returned. *)
Lemma method2_Ok (s1 s1' : xr_Dataset n) :
  add_channels prec emax s1 = Ok s1' → succeeds (method2 prec emax s1').
Proof.
  intros (vv & vh & Hvv & Hvh & ->)%add_channels_inv.
  destruct (with_channels_lookup prec emax s1 vv vh) as (_ & Hq & _).
  destruct (with_channels_vv_vh prec emax s1 vv vh) as [E1 E2].
  rewrite Hvv in E1. rewrite Hvh in E2.
  unfold method2, getattr. rewrite E1, E2, Hq. simpl. by eexists.
Qed.

(** A run that reaches the end has had every external call return. *)
Lemma run_all_Ok_inv (w : World n) ns :
  run_all prec emax w = Ok ns →
  Datacube w "Sentinel-1 example" = Ok () ∧
  (∃ found, find_datasets w "s1_rtc" = Ok found ∧
            Namespace.senti ns = senti_datasets found) ∧
  ∃ s1, load w "s1_rtc" id = Ok s1 ∧
        add_channels prec emax s1 = Ok (Namespace.s1 ns) ∧
        display_map w (Namespace.longitude ns) (Namespace.latitude ns) = Ok () ∧
        ∃ vv_r vh_g vh_vv vhvv_b,
          getattr (Namespace.s1 ns) "vv_r" = Ok vv_r ∧
          getattr (Namespace.s1 ns) "vh_g" = Ok vh_g ∧
          getattr (Namespace.s1 ns) "vh_vv" = Ok vh_vv ∧
          getattr (Namespace.s1 ns) "vhvv_b" = Ok vhvv_b ∧
          plot w vh_g = Ok () ∧ plot w vv_r = Ok () ∧ plot w vh_vv = Ok () ∧
          imshow w [vv_r; vh_g; vhvv_b] = Ok () ∧
          method2 prec emax (Namespace.s1 ns) = Ok (Namespace.composite ns) ∧
          rgb w (composite_arr (Namespace.composite ns)) ["red"; "green"; "blue"] = Ok ().
Proof.
  unfold run_all. intros H.
  destruct (Datacube w _) as [[]|] eqn:Hdc; [|done]. simpl in H.
  split; [done|].
  destruct (locate w) as [[senti sample]|] eqn:Hloc; [|done]. simpl in H.
  destruct (load w _ _) as [s1|] eqn:Hl; [|done]. simpl in H.
  destruct (selected_id senti) as [sel|]; [|done]. simpl in H.
  destruct (extent_of sel) as [ext|]; [|done]. simpl in H.
  destruct (interval (lat_dict ext)) as [lat|]; [|done]. simpl in H.
  destruct (interval (lon_dict ext)) as [lon|]; [|done]. simpl in H.
  destruct (display_map w lon lat) as [[]|] eqn:Hmap; [|done]. simpl in H.
  destruct (add_channels prec emax s1) as [s1'|] eqn:Hadd; [|done]. simpl in H.
  destruct (getattr s1' "vh_g") as [g|] eqn:Hg; [|done]. simpl in H.
  destruct (plot w g) as [[]|] eqn:Hpg; [|done]. simpl in H.
  destruct (getattr s1' "vv_r") as [r|] eqn:Hr; [|done]. simpl in H.
  destruct (plot w r) as [[]|] eqn:Hpr; [|done]. simpl in H.
  destruct (getattr s1' "vh_vv") as [q|] eqn:Hq; [|done]. simpl in H.
  destruct (plot w q) as [[]|] eqn:Hpq; [|done]. simpl in H.
  destruct (method1 w s1') as [[]|] eqn:Hm1; [|done]. simpl in H.
  destruct (method2 prec emax s1') as [c|] eqn:Hc; [|done]. simpl in H.
  destruct (rgb w _ _) as [[]|] eqn:Hrgb; [|done]. simpl in H.
  inversion H; subst; clear H. simpl. split.
  { unfold locate in Hloc.
    destruct (find_datasets w "s1_rtc") as [found|]; [|done]. simpl in Hloc.
    destruct (getitem (senti_datasets found) 100) as [smp|]; [|done]. simpl in Hloc.
    destruct (doc_getitem _ "label"); [|done]. simpl in Hloc.
    exists found. split; [done|]. by inversion Hloc. }
  exists s1. split; [done|]. split; [done|]. split; [done|].
  unfold method1 in Hm1. rewrite Hr, Hg in Hm1. simpl in Hm1.
  destruct (getattr s1' "vhvv_b") as [b|] eqn:Hb; [|done]. simpl in Hm1.
  exists r, g, q, b. done.
Qed.

(** C8: nothing in the notebook catches an exception.  Whatever one of its
    calls raises (the datacube handle, the query, the load, the map, the
    three single-band plots, the image of method 1, the renderer of method 2,
    and likewise the indexings and the derivation cell) is the outcome of the
    whole run, unchanged, as soon as the calls before it returned; and a run
    that ends normally has had every external call return.  The divisions of
    the derivation cell are between two variables of one raster, which share
    their grid, and raise nothing. *)
Theorem errors_propagate (w : World n) (e : exn) :
  (Datacube w "Sentinel-1 example" = Raise e → run_all prec emax w = Raise e) ∧
  (Datacube w "Sentinel-1 example" = Ok () →
   (find_datasets w "s1_rtc" = Raise e → run_all prec emax w = Raise e) ∧
   (locate w = Raise e → run_all prec emax w = Raise e) ∧
   ∀ senti sample, locate w = Ok (senti, sample) →
   (load w "s1_rtc" id = Raise e → run_all prec emax w = Raise e) ∧
   ∀ s1, load w "s1_rtc" id = Ok s1 →
   (selected_id senti = Raise e → run_all prec emax w = Raise e) ∧
   ∀ selected, selected_id senti = Ok selected →
   (extent_of selected = Raise e → run_all prec emax w = Raise e) ∧
   ∀ ext, extent_of selected = Ok ext →
   (interval (lat_dict ext) = Raise e → run_all prec emax w = Raise e) ∧
   ∀ latitude, interval (lat_dict ext) = Ok latitude →
   (interval (lon_dict ext) = Raise e → run_all prec emax w = Raise e) ∧
   ∀ longitude, interval (lon_dict ext) = Ok longitude →
   (display_map w longitude latitude = Raise e → run_all prec emax w = Raise e) ∧
   (display_map w longitude latitude = Ok () →
    (add_channels prec emax s1 = Raise e → run_all prec emax w = Raise e) ∧
    ∀ s1', add_channels prec emax s1 = Ok s1' →
    ∃ vv_r vh_g vh_vv vhvv_b c,
      getattr s1' "vv_r" = Ok vv_r ∧ getattr s1' "vh_g" = Ok vh_g ∧
      getattr s1' "vh_vv" = Ok vh_vv ∧ getattr s1' "vhvv_b" = Ok vhvv_b ∧
      method2 prec emax s1' = Ok c ∧
      (plot w vh_g = Raise e → run_all prec emax w = Raise e) ∧
      (plot w vh_g = Ok () →
       (plot w vv_r = Raise e → run_all prec emax w = Raise e) ∧
       (plot w vv_r = Ok () →
        (plot w vh_vv = Raise e → run_all prec emax w = Raise e) ∧
        (plot w vh_vv = Ok () →
         (imshow w [vv_r; vh_g; vhvv_b] = Raise e → run_all prec emax w = Raise e) ∧
         (imshow w [vv_r; vh_g; vhvv_b] = Ok () →
          (rgb w (composite_arr c) ["red"; "green"; "blue"] = Raise e →
           run_all prec emax w = Raise e) ∧
          (rgb w (composite_arr c) ["red"; "green"; "blue"] = Ok () →
           succeeds (run_all prec emax w)))))))) ∧
  (∀ ns, run_all prec emax w = Ok ns →
     Datacube w "Sentinel-1 example" = Ok () ∧
     succeeds (find_datasets w "s1_rtc") ∧
     ∃ s1, load w "s1_rtc" id = Ok s1 ∧
           add_channels prec emax s1 = Ok (Namespace.s1 ns) ∧
           display_map w (Namespace.longitude ns) (Namespace.latitude ns) = Ok () ∧
           ∃ vv_r vh_g vh_vv vhvv_b,
             getattr (Namespace.s1 ns) "vv_r" = Ok vv_r ∧
             getattr (Namespace.s1 ns) "vh_g" = Ok vh_g ∧
             getattr (Namespace.s1 ns) "vh_vv" = Ok vh_vv ∧
             getattr (Namespace.s1 ns) "vhvv_b" = Ok vhvv_b ∧
             plot w vh_g = Ok () ∧ plot w vv_r = Ok () ∧ plot w vh_vv = Ok () ∧
             imshow w [vv_r; vh_g; vhvv_b] = Ok () ∧
             rgb w (composite_arr (Namespace.composite ns)) ["red"; "green"; "blue"]
             = Ok ()).
Proof.
  split; [intros Hdc; by run|]. split.
  - intros Hdc. split; [intros Hf; unfold run_all, locate; by repeat run_step|].
    split; [intros Hloc; by run|]. intros senti sample Hloc.
    split; [intros Hl; by run|]. intros s1 Hl.
    split; [intros Hsel; by run|]. intros selected Hsel.
    split; [intros Hext; by run|]. intros ext Hext.
    split; [intros Hlat; by run|]. intros latitude Hlat.
    split; [intros Hlon; by run|]. intros longitude Hlon.
    split; [intros Hmap; by run|]. intros Hmap.
    split; [intros Hadd; by run|]. intros s1' Hadd.
    destruct (method2_Ok s1 s1' Hadd) as [c Hc].
    pose proof Hadd as (vv & vh & Hvv & Hvh & Es)%add_channels_inv.
    destruct (with_channels_lookup prec emax s1 vv vh) as (_ & H2 & H3 & H4 & H5).
    rewrite <- Es in H2, H3, H4, H5.
    assert (getattr s1' "vv_r" = Ok (truediv_scalar prec emax vv (mean prec emax vv)))
      as Hr by (unfold getattr; by rewrite H3).
    assert (getattr s1' "vh_g" = Ok (truediv_scalar prec emax vh (mean prec emax vh)))
      as Hg by (unfold getattr; by rewrite H4).
    assert (getattr s1' "vh_vv" = Ok (vzip_with (SFdiv prec emax) vh vv))
      as Hq by (unfold getattr; by rewrite H2).
    pose proof H5 as Hb. apply (f_equal (λ o, match o with
      Some a => Ok a | None => Raise (AttributeError "vhvv_b") end)) in Hb.
    change (getattr s1' "vhvv_b" = Ok (truediv_scalar prec emax
              (vzip_with (SFdiv prec emax) vh vv)
              (mean prec emax (vzip_with (SFdiv prec emax) vh vv)))) in Hb.
    clear Hvv Hvh Es H2 H3 H4 H5.
    eexists _, _, _, _, c.
    split; [exact Hr|]. split; [exact Hg|]. split; [exact Hq|]. split; [exact Hb|].
    split; [exact Hc|].
    split; [intros Hp1; by run|]. intros Hp1.
    split; [intros Hp2; by run|]. intros Hp2.
    split; [intros Hp3; by run|]. intros Hp3.
    split; [intros Him; by run|]. intros Him.
    split; [intros Hrgb; by run|]. intros Hrgb.
    eexists. by run.
  - intros ns (Hdc & (found & Hf & _) & s1 & Hl & Ha & Hmap & r & g & q & b & H)%run_all_Ok_inv.
    split; [done|]. split; [by exists found|]. exists s1.
    split; [done|]. split; [done|]. split; [done|]. exists r, g, q, b.
    destruct H as (? & ? & ? & ? & ? & ? & ? & ? & _ & ?). done.
Qed.

(** X13: when the query cell, the load and the reading of the extent return,
    the raster has [vv] and [vh] and the display calls return, the whole
    notebook runs to its end, and the raster it leaves is the loaded one with
    the five channels added. *)
Theorem run_all_Ok (w : World n) senti sample s1 selected ext latitude longitude vv vh :
  shows_everything w →
  Datacube w "Sentinel-1 example" = Ok () →
  locate w = Ok (senti, sample) →
  load w "s1_rtc" id = Ok s1 →
  selected_id senti = Ok selected →
  extent_of selected = Ok ext →
  interval (lat_dict ext) = Ok latitude →
  interval (lon_dict ext) = Ok longitude →
  s1 !! "vv" = Some vv → s1 !! "vh" = Some vh →
  ∃ c, method2 prec emax (with_channels prec emax s1 vv vh) = Ok c ∧
       run_all prec emax w =
       Ok (Namespace.mk senti sample (with_channels prec emax s1 vv vh)
             selected ext latitude longitude c).
Proof.
  intros (Hmap & Hplot & Him & Hrgb) Hdc Hloc Hl Hsel Hext Hlat Hlon Hvv Hvh.
  pose proof (add_channels_Ok prec emax s1 vv vh Hvv Hvh) as Hadd.
  destruct (with_channels_lookup prec emax s1 vv vh) as (H1 & H2 & H3 & H4 & H5).
  destruct (method2_Ok _ _ Hadd) as [c Hc].
  exists c. split; [done|].
  unfold run_all. rewrite Hdc. simpl. rewrite Hloc. simpl. rewrite Hl. simpl.
  rewrite Hsel. simpl. rewrite Hext. simpl. rewrite Hlat. simpl. rewrite Hlon. simpl.
  rewrite Hmap. simpl. rewrite Hadd. simpl.
  unfold getattr, method1, getattr. rewrite H4. simpl. rewrite Hplot. simpl.
  rewrite H3. simpl. rewrite Hplot. simpl. rewrite H2. simpl. rewrite Hplot. simpl.
  rewrite H5. simpl. rewrite Him. simpl. rewrite Hc. simpl. by rewrite Hrgb.
Qed.
End Exceptions.

(** * Rounding, in real numbers *)

(** ** Powers of two *)

Lemma bpow_pos e : (0 < bpow e)%R.
Proof. apply powerRZ_lt. lra. Qed.

Lemma bpow_add a b : bpow (a + b) = (bpow a * bpow b)%R.
Proof. apply powerRZ_add. lra. Qed.

Lemma bpow_0 : bpow 0 = 1%R.
Proof. reflexivity. Qed.

Lemma bpow_1 : bpow 1 = 2%R.
Proof. unfold bpow. simpl. lra. Qed.

Lemma bpow_opp e : bpow (- e) = (/ bpow e)%R.
Proof. apply powerRZ_neg'. Qed.

Lemma bpow_succ e : bpow (e + 1) = (2 * bpow e)%R.
Proof. rewrite bpow_add, bpow_1. lra. Qed.

Lemma bpow_pred e : bpow (e - 1) = (bpow e / 2)%R.
Proof.
  replace e with ((e - 1) + 1) at 2 by lia. rewrite bpow_succ. lra.
Qed.

Lemma bpow_le a b : a <= b → (bpow a <= bpow b)%R.
Proof.
  intros H. replace b with (a + Z.of_nat (Z.to_nat (b - a))) by lia.
  induction (Z.to_nat (b - a)) as [|n IH].
  - rewrite Z.add_0_r. lra.
  - rewrite Nat2Z.inj_succ. unfold Z.succ. rewrite Z.add_assoc, bpow_succ.
    pose proof (bpow_pos a). lra.
Qed.

Lemma bpow_lt a b : a < b → (bpow a < bpow b)%R.
Proof.
  intros H. assert (a + 1 <= b) as H' by lia. apply bpow_le in H'.
  rewrite bpow_succ in H'. pose proof (bpow_pos a). lra.
Qed.

Lemma bpow_lt_inv a b : (bpow a < bpow b)%R → a < b.
Proof.
  intros H. destruct (Z_lt_le_dec a b) as [|Hle]; [done|].
  apply bpow_le in Hle. lra.
Qed.

Lemma bpow_IZR n : 0 <= n → bpow n = IZR (2 ^ n).
Proof.
  intros Hn. rewrite <- (Z2Nat.id n Hn). induction (Z.to_nat n) as [|k IH].
  - reflexivity.
  - rewrite Nat2Z.inj_succ. unfold Z.succ. rewrite bpow_succ, IH.
    rewrite Z.pow_add_r by lia. rewrite mult_IZR. simpl. lra.
Qed.

Lemma bpow_inv_l e : (bpow (- e) * bpow e = 1)%R.
Proof. rewrite <- bpow_add. replace (- e + e) with 0 by lia. apply bpow_0. Qed.

Lemma F2R_pos m e : 0 < m → (0 < F2R m e)%R.
Proof.
  intros Hm. unfold F2R. apply Rmult_lt_0_compat; [by apply IZR_lt|apply bpow_pos].
Qed.

(** ** The number of binary digits *)

Lemma digits2_pos_spec p :
  2 ^ (Zpos (digits2_pos p) - 1) <= Zpos p < 2 ^ Zpos (digits2_pos p).
Proof.
  induction p as [p IH|p IH|]; simpl digits2_pos.
  - rewrite Pos2Z.inj_succ. unfold Z.succ.
    replace (Zpos (digits2_pos p) + 1 - 1) with (Zpos (digits2_pos p) - 1 + 1) by lia.
    rewrite !Z.pow_add_r by lia. change (2 ^ 1) with 2. lia.
  - rewrite Pos2Z.inj_succ. unfold Z.succ.
    replace (Zpos (digits2_pos p) + 1 - 1) with (Zpos (digits2_pos p) - 1 + 1) by lia.
    rewrite !Z.pow_add_r by lia. change (2 ^ 1) with 2. lia.
  - simpl. lia.
Qed.

Lemma Zdigits2_spec m : 0 < m → 2 ^ (Zdigits2 m - 1) <= m < 2 ^ Zdigits2 m.
Proof. destruct m as [|p|p]; try lia. intros _. apply digits2_pos_spec. Qed.

Lemma Zdigits2_nonneg m : 0 <= Zdigits2 m.
Proof. destruct m; simpl; lia. Qed.

Lemma Zdigits2_pos m : 0 < m → 0 < Zdigits2 m.
Proof. destruct m; simpl; lia. Qed.

Lemma Zdigits2_le_of_lt m k : 0 <= m → 0 <= k → m < 2 ^ k → Zdigits2 m <= k.
Proof.
  intros Hm Hk H. destruct (Z.eq_dec m 0) as [->|Hne]; [simpl; lia|].
  destruct (Zdigits2_spec m ltac:(lia)) as [H1 _].
  destruct (Z_le_gt_dec (Zdigits2 m) k) as [|Hgt]; [done|].
  assert (2 ^ k <= 2 ^ (Zdigits2 m - 1)) by (apply Z.pow_le_mono_r; lia). lia.
Qed.

Lemma Zdigits2_ge_of_le m k : 0 <= k → 2 ^ k <= m → k + 1 <= Zdigits2 m.
Proof.
  intros Hk H. assert (0 < m) as Hm by (pose proof (Z.pow_pos_nonneg 2 k); lia).
  destruct (Zdigits2_spec m Hm) as [_ H2].
  destruct (Z_le_gt_dec (k + 1) (Zdigits2 m)) as [|Hgt]; [done|].
  assert (2 ^ Zdigits2 m <= 2 ^ k) by (apply Z.pow_le_mono_r; lia). lia.
Qed.

Lemma Zdigits2_mono a b : 0 <= a → a <= b → Zdigits2 a <= Zdigits2 b.
Proof.
  intros Ha Hab. destruct (Z.eq_dec b 0) as [->|Hb].
  - replace a with 0 by lia. lia.
  - apply Zdigits2_le_of_lt; [done|apply Zdigits2_nonneg|].
    destruct (Zdigits2_spec b ltac:(lia)). lia.
Qed.

Lemma Zdigits2_pow2 k : 0 <= k → Zdigits2 (2 ^ k) = k + 1.
Proof.
  intros Hk. pose proof (Z.pow_pos_nonneg 2 k ltac:(lia) Hk) as Hp.
  apply Z.le_antisymm.
  - apply Zdigits2_le_of_lt; [lia|lia|]. apply Z.pow_lt_mono_r; lia.
  - apply Zdigits2_ge_of_le; [done|lia].
Qed.

(** The digits of [m + 1]: one more than those of [m] only when [m + 1] is
    a power of two. *)
Lemma Zdigits2_succ m :
  0 <= m →
  Zdigits2 (m + 1) <= Zdigits2 m + 1 ∧
  (Zdigits2 (m + 1) = Zdigits2 m + 1 → m + 1 = 2 ^ Zdigits2 m).
Proof.
  intros Hm. pose proof (Zdigits2_nonneg m) as Hd.
  assert (m < 2 ^ Zdigits2 m) as Hlt.
  { destruct (Z.eq_dec m 0) as [->|Hne]; [simpl; lia|].
    by destruct (Zdigits2_spec m ltac:(lia)). }
  split.
  - apply Zdigits2_le_of_lt; [lia|lia|]. rewrite Z.pow_add_r by lia.
    change (2 ^ 1) with 2. lia.
  - intros E. destruct (Zdigits2_spec (m + 1) ltac:(lia)) as [H1 _].
    rewrite E in H1. replace (Zdigits2 m + 1 - 1) with (Zdigits2 m) in H1 by lia. lia.
Qed.

(** Dropping [k] low bits drops [k] digits. *)
Lemma Zdigits2_div_pow2 m k :
  0 <= m → 0 <= k → Zdigits2 (m / 2 ^ k) = Z.max (Zdigits2 m - k) 0.
Proof.
  intros Hm Hk. pose proof (Z.pow_pos_nonneg 2 k ltac:(lia) Hk) as Hp.
  destruct (Z_lt_le_dec m (2 ^ k)) as [Hlt|Hge].
  - rewrite Z.div_small by lia. pose proof (Zdigits2_le_of_lt m k Hm Hk Hlt).
    simpl. lia.
  - pose proof (Zdigits2_ge_of_le m k Hk Hge) as Hd.
    destruct (Zdigits2_spec m ltac:(lia)) as [H1 H2].
    set (d := Zdigits2 m) in *.
    assert (2 ^ d = 2 ^ k * 2 ^ (d - k)) as E1
      by (rewrite <- Z.pow_add_r by lia; f_equal; lia).
    assert (2 ^ (d - 1) = 2 ^ k * 2 ^ (d - k - 1)) as E2
      by (rewrite <- Z.pow_add_r by lia; f_equal; lia).
    assert (m / 2 ^ k < 2 ^ (d - k)) as Hu
      by (apply Z.div_lt_upper_bound; lia).
    assert (2 ^ (d - k - 1) <= m / 2 ^ k) as Hl
      by (apply Z.div_le_lower_bound; lia).
    assert (0 <= m / 2 ^ k) as Hq by (apply Z.div_pos; lia).
    pose proof (Zdigits2_le_of_lt _ (d - k) Hq ltac:(lia) Hu).
    pose proof (Zdigits2_ge_of_le _ (d - k - 1) ltac:(lia) Hl). lia.
Qed.

Lemma IZR_Zdigits2 m :
  0 < m → (bpow (Zdigits2 m - 1) <= IZR m < bpow (Zdigits2 m))%R.
Proof.
  intros Hm. destruct (Zdigits2_spec m Hm) as [H1 H2].
  pose proof (Zdigits2_pos m Hm).
  rewrite !bpow_IZR by lia. split; [by apply IZR_le|by apply IZR_lt].
Qed.

(** ** Shifting a mantissa to the right *)

Lemma IZR_xO p : IZR (Zpos p~0) = (2 * IZR (Zpos p))%R.
Proof. rewrite Pos2Z.inj_xO, mult_IZR. lra. Qed.

Lemma IZR_xI p : IZR (Zpos p~1) = (2 * IZR (Zpos p) + 1)%R.
Proof. rewrite Pos2Z.inj_xI, plus_IZR, mult_IZR. lra. Qed.

Lemma shr_1_inbetween mrs x : inbetween mrs x → inbetween (shr_1 mrs) (x / 2)%R.
Proof.
  destruct mrs as [m r s]. unfold inbetween. intros [Hm H].
  cbn [shr_m shr_r shr_s] in *.
  destruct m as [|[p|p|]|p]; try lia; cbn [shr_1 shr_m shr_r shr_s orb].
  - split; [lia|]. destruct r, s; cbn [orb]; lra.
  - split; [lia|]. rewrite IZR_xI in H. destruct r, s; cbn [orb]; lra.
  - split; [lia|]. rewrite IZR_xO in H. destruct r, s; cbn [orb]; lra.
  - split; [lia|]. destruct r, s; cbn [orb]; lra.
Qed.

Lemma shr_1_div2 mrs : 0 <= shr_m mrs → shr_m (shr_1 mrs) = shr_m mrs / 2.
Proof.
  destruct mrs as [m r s]. cbn [shr_m]. intros Hm.
  destruct m as [|[p|p|]|p]; try lia; cbn [shr_1 shr_m].
  - reflexivity.
  - apply (Z.div_unique _ 2 _ 1); lia.
  - apply (Z.div_unique _ 2 _ 0); lia.
  - reflexivity.
Qed.

Lemma iter_pos_shr_1_inbetween p mrs x :
  inbetween mrs x → inbetween (SpecFloat.iter_pos shr_1 p mrs) (x * bpow (- Zpos p))%R.
Proof.
  revert mrs x. induction p as [p IH|p IH|]; intros mrs x H; cbn [SpecFloat.iter_pos].
  - apply shr_1_inbetween in H. apply IH, IH in H.
    replace (x * bpow (- Zpos p~1))%R with (x / 2 * bpow (- Zpos p) * bpow (- Zpos p))%R;
      [done|].
    replace (- Zpos p~1) with (- Zpos p + (- Zpos p + - (1))) by lia.
    rewrite !bpow_add, (bpow_opp 1), bpow_1. lra.
  - apply IH, IH in H.
    replace (x * bpow (- Zpos p~0))%R with (x * bpow (- Zpos p) * bpow (- Zpos p))%R;
      [done|].
    replace (- Zpos p~0) with (- Zpos p + - Zpos p) by lia.
    rewrite !bpow_add. lra.
  - apply shr_1_inbetween in H. by rewrite (bpow_opp 1), bpow_1.
Qed.

Lemma iter_pos_shr_1_div p mrs :
  0 <= shr_m mrs →
  0 <= shr_m (SpecFloat.iter_pos shr_1 p mrs) ∧
  shr_m (SpecFloat.iter_pos shr_1 p mrs) = shr_m mrs / 2 ^ Zpos p.
Proof.
  revert mrs. induction p as [p IH|p IH|]; intros mrs H; cbn [SpecFloat.iter_pos].
  - assert (0 <= shr_m (shr_1 mrs)) as H1
      by (rewrite shr_1_div2 by done; apply Z.div_pos; lia).
    destruct (IH _ H1) as [H2 E2]. destruct (IH _ H2) as [H3 E3].
    split; [done|]. rewrite E3, E2, shr_1_div2 by done.
    rewrite !Z.div_div by lia. f_equal.
    replace (Zpos p~1) with (1 + Zpos p + Zpos p) by lia.
    rewrite !Z.pow_add_r by lia. change (2 ^ 1) with 2. lia.
  - destruct (IH _ H) as [H2 E2]. destruct (IH _ H2) as [H3 E3].
    split; [done|]. rewrite E3, E2.
    rewrite !Z.div_div by lia. f_equal.
    replace (Zpos p~0) with (Zpos p + Zpos p) by lia.
    rewrite !Z.pow_add_r by lia. lia.
  - rewrite shr_1_div2 by done. split; [apply Z.div_pos; lia|done].
Qed.

Lemma shr_m_of_loc m l : shr_m (shr_record_of_loc m l) = m.
Proof. by destruct l as [|[]]. Qed.

Lemma inbetween_bounds mrs x :
  inbetween mrs x → (IZR (shr_m mrs) <= x < IZR (shr_m mrs) + 1)%R.
Proof. unfold inbetween. intros [_ H]. destruct (shr_r mrs), (shr_s mrs); lra. Qed.

Lemma inbetween_Exact m x : 0 <= m → x = IZR m → inbetween (shr_record_of_loc m loc_Exact) x.
Proof. intros Hm ->. split; [done|reflexivity]. Qed.

Section Round.
Context (prec emax : Z).
Hypothesis Hprec : 1 <= prec.

(** The first step of rounding: the mantissa is shifted to the exponent the
    format asks for, the value it stands for staying in between. *)
Lemma shr_fexp_spec m e l v :
  inbetween (shr_record_of_loc m l) (v * bpow (- e))%R →
  ∃ mrs' e',
    shr_fexp prec emax m e l = (mrs', e') ∧
    e' = Z.max e (fexp prec emax (Zdigits2 m + e)) ∧
    inbetween mrs' (v * bpow (- e'))%R ∧
    shr_m mrs' = m / 2 ^ (e' - e) ∧
    fexp prec emax (Zdigits2 (shr_m mrs') + e') <= e' ∧
    (e <= fexp prec emax (Zdigits2 m + e) →
     fexp prec emax (Zdigits2 (shr_m mrs') + e') = e').
Proof.
  intros H. pose proof H as [Hm _]. rewrite shr_m_of_loc in Hm.
  unfold shr_fexp, shr.
  set (f := fexp prec emax (Zdigits2 m + e)).
  assert (∃ mrs', (match f - e with
                   | Zpos p => (SpecFloat.iter_pos shr_1 p (shr_record_of_loc m l), e + (f - e))
                   | _ => (shr_record_of_loc m l, e)
                   end) = (mrs', Z.max e f) ∧
                  inbetween mrs' (v * bpow (- Z.max e f))%R ∧
                  shr_m mrs' = m / 2 ^ (Z.max e f - e)) as (mrs' & E & Hin & Hdiv).
  { destruct (f - e) as [|p|p] eqn:En.
    - exists (shr_record_of_loc m l). replace (Z.max e f) with e by lia.
      split; [done|]. split; [done|]. rewrite shr_m_of_loc, Z.sub_diag.
      by rewrite Z.div_1_r.
    - exists (SpecFloat.iter_pos shr_1 p (shr_record_of_loc m l)).
      replace (Z.max e f) with (e + Zpos p) by lia. split; [done|]. split.
      + apply (iter_pos_shr_1_inbetween p) in H.
        replace (- (e + Zpos p)) with (- e + - Zpos p) by lia. rewrite bpow_add.
        by rewrite <- Rmult_assoc.
      + destruct (iter_pos_shr_1_div p (shr_record_of_loc m l)) as [_ ->];
          [by rewrite shr_m_of_loc|].
        rewrite shr_m_of_loc. f_equal. f_equal. lia.
    - exists (shr_record_of_loc m l). replace (Z.max e f) with e by lia.
      split; [done|]. split; [done|]. rewrite shr_m_of_loc, Z.sub_diag.
      by rewrite Z.div_1_r. }
  exists mrs', (Z.max e f). split; [exact E|]. split; [done|]. split; [done|].
  split; [done|]. rewrite Hdiv, Zdigits2_div_pow2 by lia.
  subst f. unfold fexp, emin. split; [lia|]. intros Hle. lia.
Qed.

Lemma round_nearest_even_inbetween mrs x :
  inbetween mrs x →
  let m1 := round_nearest_even (shr_m mrs) (loc_of_shr_record mrs) in
  (m1 = shr_m mrs ∨ m1 = shr_m mrs + 1) ∧ (Rabs (IZR m1 - x) <= / 2)%R.
Proof.
  destruct mrs as [m r s]. unfold inbetween. cbn [shr_m shr_r shr_s]. intros [Hm H].
  destruct r, s; cbn [loc_of_shr_record round_nearest_even].
  - split; [by right|]. rewrite plus_IZR. apply Rabs_le. lra.
  - destruct (Z.even m); (split; [auto|]); rewrite ?plus_IZR; apply Rabs_le; lra.
  - split; [by left|]. apply Rabs_le. lra.
  - split; [by left|]. apply Rabs_le. lra.
Qed.

(** Rounding to nearest: the result is within half a unit of its last place
    of the value rounded, and its exponent is the one the format asks for. *)
Lemma binary_round_aux_spec s mx ex lx v :
  inbetween (shr_record_of_loc mx lx) (v * bpow (- ex))%R →
  ∃ m e,
    binary_round_aux prec emax s mx ex lx = rounded prec emax s m e ∧
    0 <= m ∧
    (Rabs (F2R m e - v) <= bpow e / 2)%R ∧
    Z.max ex (fexp prec emax (Zdigits2 mx + ex)) <= e
      <= Z.max ex (fexp prec emax (Zdigits2 mx + ex)) + 1 ∧
    (ex <= fexp prec emax (Zdigits2 mx + ex) → fexp prec emax (Zdigits2 m + e) = e).
Proof.
  intros H. unfold binary_round_aux.
  destruct (shr_fexp_spec mx ex lx v H) as (mrs' & e' & -> & He' & Hin' & _ & Hd1 & Hd1').
  pose proof Hin' as [Hm' _].
  destruct (round_nearest_even_inbetween _ _ Hin') as [Hm1 Hr].
  set (m1 := round_nearest_even (shr_m mrs') (loc_of_shr_record mrs')) in *.
  assert (0 <= m1) as Hm1pos by lia.
  destruct (shr_fexp_spec m1 e' loc_Exact (F2R m1 e')) as
    (mrs'' & e'' & -> & He'' & Hin'' & Hdiv & _ & _).
  { apply inbetween_Exact; [done|]. unfold F2R.
    rewrite Rmult_assoc, (Rmult_comm (bpow e')), bpow_inv_l. lra. }
  exists (shr_m mrs''), e''. split; [by destruct (shr_m mrs'')|].
  pose proof Hin'' as [Hm'' _]. split; [done|].
  assert (Rabs (F2R m1 e' - v) <= bpow e' / 2)%R as Hv.
  { replace (F2R m1 e' - v)%R with ((IZR m1 - v * bpow (- e')) * bpow e')%R.
    - rewrite Rabs_mult, (Rabs_pos_eq (bpow e')) by (pose proof (bpow_pos e'); lra).
      pose proof (bpow_pos e'). nra.
    - unfold F2R. rewrite Rmult_minus_distr_r, Rmult_assoc, bpow_inv_l. lra. }
  pose proof (Zdigits2_mono (shr_m mrs') m1 Hm' ltac:(lia)) as Hmono.
  destruct (Zdigits2_succ (shr_m mrs') Hm') as [Hs1 Hs2].
  destruct (Z_le_gt_dec (fexp prec emax (Zdigits2 m1 + e')) e') as [Hle|Hgt].
  - (* no second shift *)
    assert (e'' = e') as -> by lia.
    rewrite Z.sub_diag, Z.div_1_r in Hdiv. rewrite Hdiv.
    split; [done|]. split; [lia|]. intros Hc. specialize (Hd1' Hc).
    revert Hle Hd1' Hmono. unfold fexp, emin. lia.
  - (* the rounded mantissa is a power of two with one digit too many *)
    assert (m1 = shr_m mrs' + 1) as E1.
    { destruct Hm1 as [E|E]; [|done]. rewrite E in Hgt. lia. }
    assert (Zdigits2 m1 = Zdigits2 (shr_m mrs') + 1 ∧ Zdigits2 (shr_m mrs') = prec
            ∧ e'' = e' + 1) as (Ed & Ep & Ee).
    { rewrite E1 in *. revert Hgt Hd1 Hs1 Hmono He''. unfold fexp, emin.
      generalize (Zdigits2 (shr_m mrs' + 1)) (Zdigits2 (shr_m mrs')).
      clear -Hprec. intros a b ? ? ? ? ?.
      assert (a = b + 1) by lia. assert (b = prec) by lia. lia. }
    assert (m1 = 2 ^ prec) as Em1.
    { rewrite <- Ep, E1. apply Hs2. rewrite <- E1. exact Ed. }
    assert (shr_m mrs'' = 2 ^ (prec - 1)) as Em.
    { rewrite Hdiv, Em1, Ee. replace (e' + 1 - e') with 1 by lia.
      change (2 ^ 1) with 2. replace prec with (prec - 1 + 1) at 1 by lia.
      rewrite Z.pow_add_r by lia. change (2 ^ 1) with 2. apply Z.div_mul. lia. }
    rewrite Em.
    assert (F2R (2 ^ (prec - 1)) e'' = F2R m1 e') as EF.
    { unfold F2R. rewrite Em1, Ee, <- !bpow_IZR, <- !bpow_add by lia. f_equal. lia. }
    rewrite EF. split.
    { pose proof (bpow_le e' e'' ltac:(lia)). pose proof (bpow_pos e'). lra. }
    split; [lia|]. intros _. rewrite Zdigits2_pow2 by lia.
    revert Hd1. rewrite Ee, Ep. unfold fexp, emin. lia.
Qed.
End Round.

(** ** Division and multiplication *)

Lemma rounded_finite prec emax s0 m0 e0 s m e :
  rounded prec emax s0 m0 e0 = S754_finite s m e →
  s0 = s ∧ m0 = Zpos m ∧ e0 = e ∧ e <= emax - prec.
Proof.
  unfold rounded. destruct m0 as [|p|p]; [done| |done].
  destruct (e0 <=? emax - prec) eqn:E; [|done].
  intros [= -> -> ->]. apply Z.leb_le in E. done.
Qed.

(** The location of a remainder says where the quotient lies. *)
Lemma new_location_inbetween my r q :
  0 <= r < my → 0 <= q →
  inbetween (shr_record_of_loc q (new_location my r)) (IZR q + IZR r / IZR my)%R.
Proof.
  intros Hr Hq.
  assert (0 < IZR my)%R as Hmy by (apply IZR_lt; lia).
  assert (0 <= IZR r)%R as Hr0 by (apply IZR_le; lia).
  set (t := (IZR r / IZR my)%R).
  assert (t * IZR my = IZR r)%R as Et by (unfold t; field; lra).
  clearbody t.
  assert (∀ c, (2 * r ?= my) = c →
               inbetween (shr_record_of_loc q (if r =? 0 then loc_Exact else loc_Inexact c))
                 (IZR q + t)%R) as Hloc.
  { intros c Hc. destruct (r =? 0) eqn:E0.
    - apply Z.eqb_eq in E0. subst r. change (IZR 0) with 0%R in Et.
      assert (t = 0)%R as -> by nra.
      split; [done|]. cbn [shr_record_of_loc shr_r shr_s shr_m]. lra.
    - apply Z.eqb_neq in E0. assert (0 < IZR r)%R as Hr1 by (apply IZR_lt; lia).
      destruct c; (split; [done|]); cbn [shr_record_of_loc shr_r shr_s shr_m].
      + apply Z.compare_eq in Hc. apply (f_equal IZR) in Hc. rewrite mult_IZR in Hc. nra.
      + apply -> Z.compare_lt_iff in Hc. apply IZR_lt in Hc. rewrite mult_IZR in Hc.
        split; nra.
      + apply -> Z.compare_gt_iff in Hc. apply IZR_lt in Hc. rewrite mult_IZR in Hc.
        assert (IZR r < IZR my)%R by (apply IZR_lt; lia). split; nra. }
  unfold new_location. destruct (Z.even my) eqn:Hev.
  - unfold new_location_even. by apply Hloc.
  - unfold new_location_odd.
    assert (Z.odd my = true) as Hodd by (rewrite <- Z.negb_even, Hev; done).
    apply Z.odd_spec in Hodd as [k Hk].
    destruct (2 * r + 1 ?= my) eqn:Hc.
    + apply Z.compare_eq in Hc. apply Hloc. apply Z.compare_lt_iff. lia.
    + apply -> Z.compare_lt_iff in Hc. apply Hloc. apply Z.compare_lt_iff. lia.
    + apply -> Z.compare_gt_iff in Hc. apply Hloc. apply Z.compare_gt_iff. lia.
Qed.

Section Operations.
Context (prec emax : Z).
Hypothesis Hprec : 1 <= prec.

(** The integer quotient that division rounds: non-negative, in between
    around the exact quotient, at an exponent the format does not look
    below. *)
Lemma SFdiv_core_binary_spec mx ex my ey :
  ∃ q e' l,
    SFdiv_core_binary prec emax (Zpos mx) ex (Zpos my) ey = (q, e', l) ∧
    inbetween (shr_record_of_loc q l)
      (F2R (Zpos mx) ex / F2R (Zpos my) ey * bpow (- e'))%R ∧
    e' <= fexp prec emax (Zdigits2 q + e').
Proof.
  unfold SFdiv_core_binary.
  set (d1 := Zdigits2 (Zpos mx)). set (d2 := Zdigits2 (Zpos my)).
  set (e' := Z.min (fexp prec emax (d1 + ex - (d2 + ey))) (ex - ey)).
  set (s := ex - ey - e').
  assert (0 <= s) as Hs by lia.
  set (m' := match s with
             | Z0 => Zpos mx | Zpos _ => Z.shiftl (Zpos mx) s | Zneg _ => 0 end).
  assert (m' = Zpos mx * 2 ^ s) as Em'.
  { subst m'. destruct s as [|p|p] eqn:Es; [lia| |lia]. apply Z.shiftl_mul_pow2. lia. }
  pose proof (Z.pow_pos_nonneg 2 s ltac:(lia) Hs) as Hps.
  pose proof (Z_div_mod m' (Zpos my) ltac:(lia)) as Hdm.
  destruct (Z.div_eucl m' (Zpos my)) as [q r]. destruct Hdm as [Eq Hr].
  assert (0 <= q) as Hq by nia.
  exists q, e', (new_location (Zpos my) r). split; [done|]. split.
  - replace (F2R (Zpos mx) ex / F2R (Zpos my) ey * bpow (- e'))%R
      with (IZR q + IZR r / IZR (Zpos my))%R; [by apply new_location_inbetween|].
    assert (0 < IZR (Zpos my))%R as Hmy by (apply IZR_lt; lia).
    assert (IZR (Zpos my) * IZR q + IZR r = IZR (Zpos mx) * bpow s)%R as ER.
    { rewrite bpow_IZR by done. rewrite <- !mult_IZR, <- plus_IZR. f_equal. lia. }
    unfold F2R. replace ex with (s + ey + e') at 1 by lia.
    rewrite !bpow_add, bpow_opp.
    pose proof (bpow_pos ey). pose proof (bpow_pos e').
    replace (IZR (Zpos mx) * (bpow s * bpow ey * bpow e') / (IZR (Zpos my) * bpow ey)
             * / bpow e')%R
      with (IZR (Zpos mx) * bpow s / IZR (Zpos my))%R by (field; lra).
    rewrite <- ER. field. lra.
  - destruct (digits2_pos_spec mx) as [Hx1 _]. destruct (digits2_pos_spec my) as [_ Hy2].
    fold (Zdigits2 (Zpos mx)) in Hx1. fold (Zdigits2 (Zpos my)) in Hy2.
    fold d1 in Hx1. fold d2 in Hy2.
    assert (0 < d1) as Hd1 by (apply Zdigits2_pos; lia).
    assert (0 < d2) as Hd2 by (apply Zdigits2_pos; lia).
    assert (2 ^ (d1 - 1 + s) <= m') as Hlow.
    { rewrite Em', Z.pow_add_r by lia. nia. }
    pose proof (Zdigits2_nonneg q) as Hdq.
    assert (q + 1 <= 2 ^ Zdigits2 q) as Hq1.
    { destruct (Z.eq_dec q 0) as [->|Hne]; [simpl; lia|].
      destruct (Zdigits2_spec q ltac:(lia)). lia. }
    assert (2 ^ (d1 - 1 + s) < 2 ^ (d2 + Zdigits2 q)) as Hpow.
    { rewrite (Z.pow_add_r 2 d2) by lia.
      pose proof (Z.pow_pos_nonneg 2 d2 ltac:(lia) ltac:(lia)). nia. }
    apply Z.pow_lt_mono_r_iff in Hpow; [|lia|lia].
    subst e' s. unfold fexp, emin in *.
    destruct (Z.eq_dec q 0) as [->|Hne].
    + change (Zdigits2 0) with 0 in *. lia.
    + pose proof (Zdigits2_pos q ltac:(lia)). lia.
Qed.

(** A finite quotient is within half a unit of its last place of the exact
    quotient, and is in canonical form. *)
Lemma SFdiv_finite_spec sx mx ex sy my ey s m e :
  SFdiv prec emax (S754_finite sx mx ex) (S754_finite sy my ey) = S754_finite s m e →
  (Rabs (F2R (Zpos m) e - F2R (Zpos mx) ex / F2R (Zpos my) ey) <= bpow e / 2)%R ∧
  fexp prec emax (Zdigits2 (Zpos m) + e) = e ∧ e <= emax - prec.
Proof.
  unfold SFdiv.
  destruct (SFdiv_core_binary_spec mx ex my ey) as (q & e' & l & -> & Hin & Hle).
  destruct (binary_round_aux_spec prec emax Hprec (xorb sx sy) q e' l _ Hin)
    as (m0 & e0 & -> & _ & Hv & _ & Hc).
  intros (_ & -> & -> & He)%rounded_finite. split; [done|]. split; [|done].
  by apply Hc.
Qed.

(** A product is rounded from the exact product. *)
Lemma SFmul_finite_spec s1 m1 e1 s2 m2 e2 :
  ∃ m e,
    SFmul prec emax (S754_finite s1 m1 e1) (S754_finite s2 m2 e2)
    = rounded prec emax (xorb s1 s2) m e ∧
    0 <= m ∧
    (Rabs (F2R m e - F2R (Zpos m1) e1 * F2R (Zpos m2) e2) <= bpow e / 2)%R ∧
    e <= Z.max (e1 + e2) (fexp prec emax (Zdigits2 (Zpos (m1 * m2)) + (e1 + e2))) + 1.
Proof.
  unfold SFmul.
  destruct (binary_round_aux_spec prec emax Hprec (xorb s1 s2) (Zpos (m1 * m2)) (e1 + e2)
              loc_Exact (F2R (Zpos m1) e1 * F2R (Zpos m2) e2)) as (m & e & -> & Hm & Hv & He & _).
  { apply inbetween_Exact; [lia|]. unfold F2R. rewrite Pos2Z.inj_mul, mult_IZR.
    replace (- (e1 + e2)) with (- e1 + - e2) by lia. rewrite bpow_add.
    transitivity (IZR (Zpos m1) * IZR (Zpos m2)
                  * (bpow (- e1) * bpow e1) * (bpow (- e2) * bpow e2))%R; [ring|].
    rewrite !bpow_inv_l. ring. }
  exists m, e. split; [done|]. split; [done|]. split; [done|]. apply He.
Qed.
End Operations.

(** ** The product of two quotients that are inverse to each other *)

Lemma Rabs_le_inv x y : (Rabs x <= y)%R → (- y <= x <= y)%R.
Proof. unfold Rabs. destruct (Rcase_abs x); lra. Qed.

Section NearOne.
Open Scope R_scope.
Variables u E a b r ri d1 d2 : R.
Hypothesis Hu : 0 < u <= / 8.
Hypothesis HE : 8 <= E.
Hypothesis Ha : 0 < a.
Hypothesis Hb : 0 < b.
Hypothesis Hr : 0 < r.
Hypothesis Hri : 0 < ri.
Hypothesis Hinv : r * ri = 1.
Hypothesis H1 : - d1 <= a - r <= d1.
Hypothesis H2 : - d2 <= b - ri <= d2.

(** Both quotients carry a relative error of at most [u]. *)
Lemma near_one_NN : d1 <= u * a → d2 <= u * b → - (11 / 2 * u) <= a * b - 1 <= 11 / 2 * u.
Proof.
  intros N1 N2.
  assert (a * (1 - u) <= r <= a * (1 + u)) as [R1 R2] by lra.
  assert (b * (1 - u) <= ri <= b * (1 + u)) as [R3 R4] by lra.
  assert (a * (1 - u) * (b * (1 - u)) <= r * ri) as L1.
  { apply Rmult_le_compat; nra. }
  assert (r * ri <= a * (1 + u) * (b * (1 + u))) as L2.
  { apply Rmult_le_compat; nra. }
  rewrite Hinv in L1, L2.
  set (P := a * b) in *.
  assert (0 < P) as HP by (unfold P; nra).
  assert (P * ((1 - u) * (1 - u)) <= 1) as L1' by (unfold P; nra).
  assert (1 <= P * ((1 + u) * (1 + u))) as L2' by (unfold P; nra).
  clearbody P.
  assert (49 / 64 <= (1 - u) * (1 - u)) as Q1 by nra.
  assert (P <= 64 / 49) as Q2 by nra.
  split; nra.
Qed.

(** The first quotient is small, with an absolute error; the second carries
    a relative error. *)
Lemma near_one_SN :
  d1 * E <= 4 * u → d2 <= u * b → b < E → - (11 / 2 * u) <= a * b - 1 <= 11 / 2 * u.
Proof.
  intros S1 N2 Hb'.
  assert (0 <= d1) as D1 by lra. assert (0 <= d2) as D2 by lra.
  assert (a * b - 1 = (a - r) * b + (r * b - 1)) as -> by ring.
  assert (- (4 * u) <= (a - r) * b <= 4 * u) as T1.
  { assert (d1 * b <= 4 * u) by nra. split; nra. }
  assert (r * b - 1 = r * (b - ri)) as Erb by (rewrite Rmult_minus_distr_l, Hinv; ring).
  set (Q := r * b) in *. assert (0 < Q) as HQ by (unfold Q; nra).
  assert (- (u * Q) <= Q - 1 <= u * Q) as [T2 T3].
  { rewrite Erb. unfold Q. split; nra. }
  clearbody Q.
  assert (Q <= 8 / 7) as T4 by nra.
  split; nra.
Qed.

(** Both quotients are small. *)
Lemma near_one_SS :
  d1 * E <= 4 * u → d2 * E <= 4 * u → a * E < 8 → b * E < 8 →
  - (11 / 2 * u) <= a * b - 1 <= 11 / 2 * u.
Proof.
  intros S1 S2 Sa Sb.
  assert (0 <= d1) as D1 by lra. assert (0 <= d2) as D2 by lra.
  assert (a * b - 1 = (a - r) * b + r * (b - ri)) as ->
    by (rewrite Rmult_minus_distr_l, Hinv; ring).
  assert (/ E <= / 8) as IE by (apply Rinv_le_contravar; lra).
  assert (0 < / E) as IE0 by (apply Rinv_0_lt_compat; lra).
  assert (d1 <= 4 * u * / E) as D1'.
  { replace d1 with (d1 * E * / E) by (field; lra). apply Rmult_le_compat_r; lra. }
  assert (d2 <= 4 * u * / E) as D2'.
  { replace d2 with (d2 * E * / E) by (field; lra). apply Rmult_le_compat_r; lra. }
  assert (a < 8 * / E) as A'.
  { replace a with (a * E * / E) by (field; lra). apply Rmult_lt_compat_r; lra. }
  assert (b < 8 * / E) as B'.
  { replace b with (b * E * / E) by (field; lra). apply Rmult_lt_compat_r; lra. }
  assert (d1 <= u / 2) as D1'' by nra. assert (d2 <= u / 2) as D2'' by nra.
  assert (a < 1) as A'' by nra. assert (b < 1) as B'' by nra.
  assert (r <= 2) as R' by lra.
  assert (- (u / 2) <= (a - r) * b <= u / 2) as T1 by (split; nra).
  assert (- u <= r * (b - ri) <= u) as T2 by (split; nra).
  lra.
Qed.
End NearOne.

Lemma product_near_one (u E a b r ri d1 d2 : R) :
  (0 < u <= / 8)%R → (8 <= E)%R → (0 < a)%R → (0 < b)%R → (0 < r)%R → (0 < ri)%R →
  (r * ri = 1)%R →
  (Rabs (a - r) <= d1)%R → (Rabs (b - ri) <= d2)%R →
  ((d1 <= u * a)%R ∧ (a < E)%R ∨ (d1 * E <= 4 * u)%R ∧ (a * E < 8)%R) →
  ((d2 <= u * b)%R ∧ (b < E)%R ∨ (d2 * E <= 4 * u)%R ∧ (b * E < 8)%R) →
  (Rabs (a * b - 1) <= 11 / 2 * u)%R.
Proof.
  intros Hu HE Ha Hb Hr Hri Hinv H1%Rabs_le_inv H2%Rabs_le_inv C1 C2.
  apply Rabs_le.
  destruct C1 as [[N1 A1]|[S1 A1]], C2 as [[N2 B2]|[S2 B2]].
  - by apply (near_one_NN u a b r ri d1 d2).
  - replace (a * b)%R with (b * a)%R by ring.
    apply (near_one_SN u E b a ri r d2 d1); try done. by rewrite Rmult_comm.
  - by apply (near_one_SN u E a b r ri d1 d2).
  - by apply (near_one_SS u E a b r ri d1 d2).
Qed.

Section Product.
Context (prec emax : Z).
Hypothesis Hprec : 3 <= prec.
Hypothesis Hemax : 3 <= emax.

Lemma bpow_3 : bpow 3 = 8%R.
Proof. unfold bpow. simpl. lra. Qed.

Lemma bpow_2 : bpow 2 = 4%R.
Proof. unfold bpow. simpl. lra. Qed.

Lemma unit_roundoff_bounds : (0 < bpow (- prec) <= / 8)%R.
Proof.
  split; [apply bpow_pos|]. pose proof (bpow_le (- prec) (- (3)) ltac:(lia)) as H.
  rewrite (bpow_opp 3), bpow_3 in H. exact H.
Qed.

Lemma bpow_emax_bounds : (8 <= bpow emax)%R.
Proof. rewrite <- bpow_3. by apply bpow_le. Qed.

(** A number in canonical form is normal, and then its half unit in the last
    place is a relative error of [2^-prec], or has the least exponent, and
    then it is small. *)
Lemma canonical_cases m e :
  fexp prec emax (Zdigits2 (Zpos m) + e) = e → e <= emax - prec →
  let a := F2R (Zpos m) e in
  (0 < a)%R ∧ (bpow e <= a)%R ∧
  ((bpow e / 2 <= bpow (- prec) * a)%R ∧ (a < bpow emax)%R ∧ (bpow (prec - 1 + e) <= a)%R ∨
   (bpow e / 2 * bpow emax <= 4 * bpow (- prec))%R ∧ (a * bpow emax < 8)%R ∧
   e = emin prec emax).
Proof.
  intros Hc He a.
  destruct (IZR_Zdigits2 (Zpos m) ltac:(lia)) as [D1 D2].
  set (d := Zdigits2 (Zpos m)) in *.
  assert (0 < d) as Hd by (apply Zdigits2_pos; lia).
  pose proof (bpow_pos e) as Pe.
  assert (1 <= IZR (Zpos m))%R as M1 by (apply IZR_le; lia).
  split; [apply F2R_pos; lia|]. split; [unfold a, F2R; nra|].
  assert (d = prec ∨ e = emin prec emax ∧ d <= prec) as [Ed|[Ee Ed]]
    by (revert Hc; unfold fexp, emin; lia).
  - left. rewrite Ed in D1, D2. split; [|split].
    + unfold a, F2R. rewrite <- bpow_pred.
      replace (e - 1) with (- prec + (prec - 1 + e)) by lia.
      rewrite bpow_add. apply Rmult_le_compat_l; [pose proof (bpow_pos (- prec)); lra|].
      rewrite bpow_add. apply Rmult_le_compat_r; lra.
    + apply Rlt_le_trans with (bpow (prec + e)); [|apply bpow_le; lia].
      unfold a, F2R. rewrite bpow_add. apply Rmult_lt_compat_r; lra.
    + unfold a, F2R. rewrite bpow_add. apply Rmult_le_compat_r; lra.
  - right. split; [|split; [|done]].
    + rewrite <- bpow_pred, <- bpow_2, <- !bpow_add. apply bpow_le.
      rewrite Ee. unfold emin. lia.
    + rewrite <- bpow_3. unfold a, F2R.
      apply Rlt_le_trans with (bpow d * bpow e * bpow emax)%R.
      * apply Rmult_lt_compat_r; [apply bpow_pos|]. apply Rmult_lt_compat_r; lra.
      * rewrite <- !bpow_add. apply bpow_le. rewrite Ee. unfold emin. lia.
Qed.

(** The rounded product of the two rounded quotients [y/x] and [x/y], when
    both are finite and not zero, is a positive number within [2^(3-prec)]
    of one. *)
Lemma SFdiv_product_near_one x y :
  finite_nonzero (SFdiv prec emax y x) = true →
  finite_nonzero (SFdiv prec emax x y) = true →
  ∃ m e, SFmul prec emax (SFdiv prec emax y x) (SFdiv prec emax x y) = S754_finite false m e ∧
         (Rabs (F2R (Zpos m) e - 1) <= bpow (3 - prec))%R.
Proof.
  intros F1 F2.
  assert (1 <= prec) as Hp1 by lia.
  destruct (SFdiv_finite_nonzero prec emax y x F1) as (Fy & Fx & S1).
  destruct (SFdiv_finite_nonzero prec emax x y F2) as (_ & _ & S2).
  destruct x as [| | |sx mx ex]; try done. destruct y as [| | |sy my ey]; try done.
  destruct (SFdiv prec emax (S754_finite sy my ey) (S754_finite sx mx ex))
    as [| | |s1 m1 e1] eqn:E1; try done.
  destruct (SFdiv prec emax (S754_finite sx mx ex) (S754_finite sy my ey))
    as [| | |s2 m2 e2] eqn:E2; try done.
  cbn [sign] in S1, S2.
  destruct (SFdiv_finite_spec prec emax Hp1 _ _ _ _ _ _ _ _ _ E1) as (V1 & C1 & B1).
  destruct (SFdiv_finite_spec prec emax Hp1 _ _ _ _ _ _ _ _ _ E2) as (V2 & C2 & B2).
  pose proof (F2R_pos (Zpos mx) ex ltac:(lia)) as PX.
  pose proof (F2R_pos (Zpos my) ey ltac:(lia)) as PY.
  set (X := F2R (Zpos mx) ex) in *. set (Y := F2R (Zpos my) ey) in *.
  destruct (canonical_cases m1 e1 C1 B1) as (Pa & La & K1).
  destruct (canonical_cases m2 e2 C2 B2) as (Pb & Lb & K2).
  set (a := F2R (Zpos m1) e1) in *. set (b := F2R (Zpos m2) e2) in *.
  pose proof unit_roundoff_bounds as Hu. pose proof bpow_emax_bounds as HE.
  set (u := bpow (- prec)) in *.
  assert (0 < Y / X)%R as Pr by (apply Rdiv_lt_0_compat; lra).
  assert (0 < X / Y)%R as Pri by (apply Rdiv_lt_0_compat; lra).
  assert (Y / X * (X / Y) = 1)%R as Hinv by (field; lra).
  assert (Rabs (a * b - 1) <= 11 / 2 * u)%R as HP.
  { apply (product_near_one u (bpow emax) a b (Y / X) (X / Y) (bpow e1 / 2) (bpow e2 / 2));
      try done.
    - destruct K1 as [(? & ? & _)|(? & ? & _)]; [by left|by right].
    - destruct K2 as [(? & ? & _)|(? & ? & _)]; [by left|by right]. }
  apply Rabs_le_inv in HP.
  (* the exponent of the product *)
  assert (e1 + e2 <= 1 - prec) as He12.
  { assert (a * b < bpow 1)%R as Hlt by (rewrite bpow_1; lra).
    pose proof (bpow_pos e1) as Pe1. pose proof (bpow_pos e2) as Pe2.
    destruct K1 as [(_ & _ & N1)|(_ & _ & Ee1)].
    - assert (bpow (prec - 1 + e1 + e2) < bpow 1)%R as Hb.
      { eapply Rle_lt_trans; [|exact Hlt]. rewrite bpow_add.
        pose proof (bpow_pos (prec - 1 + e1)). apply Rmult_le_compat; lra. }
      apply bpow_lt_inv in Hb. lia.
    - destruct K2 as [(_ & _ & N2)|(_ & _ & Ee2)].
      + assert (bpow (e1 + (prec - 1 + e2)) < bpow 1)%R as Hb.
        { eapply Rle_lt_trans; [|exact Hlt]. rewrite bpow_add.
          pose proof (bpow_pos (prec - 1 + e2)). apply Rmult_le_compat; lra. }
        apply bpow_lt_inv in Hb. lia.
      + rewrite Ee1, Ee2. unfold emin. lia. }
  destruct (SFmul_finite_spec prec emax Hp1 s1 m1 e1 s2 m2 e2)
    as (m & e & -> & Hm & Hv & He).
  fold a b in Hv.
  assert (Zdigits2 (Zpos (m1 * m2)) + (e1 + e2) <= 1) as Hdig.
  { destruct (IZR_Zdigits2 (Zpos (m1 * m2)) ltac:(lia)) as [D1 _].
    assert (a * b = IZR (Zpos (m1 * m2)) * bpow (e1 + e2))%R as EP.
    { unfold a, b, F2R. rewrite Pos2Z.inj_mul, mult_IZR, bpow_add. ring. }
    assert (bpow (Zdigits2 (Zpos (m1 * m2)) - 1 + (e1 + e2)) < bpow 1)%R as Hb.
    { rewrite bpow_1, bpow_add. pose proof (bpow_pos (e1 + e2)).
      apply Rle_lt_trans with (a * b)%R; [|lra]. rewrite EP.
      apply Rmult_le_compat_r; lra. }
    apply bpow_lt_inv in Hb. lia. }
  assert (e <= 2 - prec) as He2.
  { revert He Hdig He12. unfold fexp, emin.
    generalize (Zdigits2 (Zpos (m1 * m2))). intros. lia. }
  assert (bpow e / 2 <= 2 * u)%R as Hulp.
  { rewrite <- bpow_pred, <- bpow_1. unfold u. rewrite <- bpow_add. apply bpow_le. lia. }
  apply Rabs_le_inv in Hv.
  assert (- (15 / 2 * u) <= F2R m e - 1 <= 15 / 2 * u)%R as Hf by lra.
  assert (0 < m) as Hmpos.
  { destruct (Z.eq_dec m 0) as [->|]; [|lia]. unfold F2R in Hf.
    rewrite Rmult_0_l in Hf. lra. }
  destruct m as [|p|p]; try lia. exists p, e. split.
  - unfold rounded. rewrite (proj2 (Z.leb_le e (emax - prec))) by lia.
    f_equal. rewrite S1, S2. by destruct sx, sy.
  - apply Rabs_le. replace (3 - prec) with (3 + - prec) by lia.
    rewrite bpow_add, bpow_3. fold u. lra.
Qed.
End Product.

(** ** The product of the two ratio channels *)

Section RatioProduct.
Context (prec emax : Z) {n : nat}.

(** C2, as amended: at a pixel where both ratio channels are finite and not
    zero, both measurement pixels are finite and not zero, the two ratios have
    the same sign, and their product (the rounded product of the two rounded
    quotients) is not NaN and not negative; in a format with at least three
    bits of precision and [emax] at least three, binary32 and binary64 among
    them, the product is a finite positive number that is 1 up to rounding:
    it differs from 1 by at most [2^(3-prec)], eight units in the last place
    of 1. *)
Theorem ratio_product (s1 s1' : xr_Dataset n) i q1 q2 :
  add_channels prec emax s1 = Ok s1' →
  pixel s1' "vh_vv" i = Some q1 → pixel s1' "vv_vh" i = Some q2 →
  finite_nonzero q1 = true → finite_nonzero q2 = true →
  ∃ x y, pixel s1 "vv" i = Some x ∧ pixel s1 "vh" i = Some y ∧
         finite_nonzero x = true ∧ finite_nonzero y = true ∧
         q1 = SFdiv prec emax y x ∧ q2 = SFdiv prec emax x y ∧
         sign q1 = sign q2 ∧
         is_nan (SFmul prec emax q1 q2) = false ∧
         sign (SFmul prec emax q1 q2) = false ∧
         (3 <= prec → 3 <= emax →
          ∃ m e, SFmul prec emax q1 q2 = S754_finite false m e ∧
                 (Rabs (F2R (Zpos m) e - 1) <= bpow (3 - prec))%R).
Proof.
  intros (vv & vh & Hvv & Hvh & ->)%add_channels_inv.
  destruct (with_channels_lookup prec emax s1 vv vh) as (Hq2 & Hq1 & _).
  unfold pixel. rewrite Hq1, Hq2, Hvv, Hvh. simpl.
  rewrite !vec_to_list_zip_with.
  intros (y & x & -> & Hy & Hx)%lookup_zip_with_Some.
  intros (x' & y' & -> & Hx' & Hy')%lookup_zip_with_Some.
  rewrite Hx in Hx'. rewrite Hy in Hy'. inversion Hx'; inversion Hy'; subst x' y'.
  intros Hf1 Hf2.
  pose proof Hf1 as (Hfy & Hfx & Hs1)%SFdiv_finite_nonzero.
  pose proof Hf2 as (_ & _ & Hs2)%SFdiv_finite_nonzero.
  exists x, y. repeat (split; [done|]).
  assert (sign (SFdiv prec emax y x) = sign (SFdiv prec emax x y)) as Hs
    by (rewrite Hs1, Hs2; apply xorb_comm).
  split; [done|].
  assert (is_nan (SFmul prec emax (SFdiv prec emax y x) (SFdiv prec emax x y)) = false ∧
          sign (SFmul prec emax (SFdiv prec emax y x) (SFdiv prec emax x y)) = false)
    as [Hn Hsg].
  { destruct (SFdiv prec emax y x) as [| | |sa ma ea]; try done.
    destruct (SFdiv prec emax x y) as [| | |sb mb eb]; try done.
    simpl in Hs. rewrite Hs. simpl.
    replace (xorb sb sb) with false by (by destruct sb).
    by apply binary_round_aux_sign. }
  split; [done|]. split; [done|]. intros Hp He.
  by apply SFdiv_product_near_one.
Qed.
End RatioProduct.

(** C2 as stated fails: with [vv = 3] and [vh = 29] both ratios are finite and
    not zero, and their product is not 1, in binary32 and in binary64. *)
Lemma ratio_product_not_one :
  (let s1' := with_channels 24 128 (raster 24 128 [# 3] [# 29])
                [# of_Z 24 128 3] [# of_Z 24 128 29] in
   let q1 := SFdiv 24 128 (of_Z 24 128 29) (of_Z 24 128 3) in
   let q2 := SFdiv 24 128 (of_Z 24 128 3) (of_Z 24 128 29) in
   add_channels 24 128 (raster 24 128 [# 3] [# 29]) = Ok s1' ∧
   pixel s1' "vh_vv" 0 = Some q1 ∧ pixel s1' "vv_vh" 0 = Some q2 ∧
   finite_nonzero q1 = true ∧ finite_nonzero q2 = true ∧
   SFmul 24 128 q1 q2 = S754_finite false 8388609 (-23) ∧
   of_Z 24 128 1 = S754_finite false 8388608 (-23) ∧
   SFeqb (SFmul 24 128 q1 q2) (of_Z 24 128 1) = false) ∧
  (let s1' := with_channels 53 1024 (raster 53 1024 [# 3] [# 29])
                [# of_Z 53 1024 3] [# of_Z 53 1024 29] in
   let q1 := SFdiv 53 1024 (of_Z 53 1024 29) (of_Z 53 1024 3) in
   let q2 := SFdiv 53 1024 (of_Z 53 1024 3) (of_Z 53 1024 29) in
   add_channels 53 1024 (raster 53 1024 [# 3] [# 29]) = Ok s1' ∧
   pixel s1' "vh_vv" 0 = Some q1 ∧ pixel s1' "vv_vh" 0 = Some q2 ∧
   finite_nonzero q1 = true ∧ finite_nonzero q2 = true ∧
   SFeqb (SFmul 53 1024 q1 q2) (of_Z 53 1024 1) = false).
Proof. split; cbv zeta; repeat split; vm_compute; reflexivity. Qed.

(** C2 as amended, at the same pixel: the product is [8388609 * 2^-23], one
    unit in the last place above 1. *)
Lemma ratio_product_witness :
  let s1 := raster 24 128 [# 3] [# 29] in
  let s1' := with_channels 24 128 s1 [# of_Z 24 128 3] [# of_Z 24 128 29] in
  let q1 := SFdiv 24 128 (of_Z 24 128 29) (of_Z 24 128 3) in
  let q2 := SFdiv 24 128 (of_Z 24 128 3) (of_Z 24 128 29) in
  add_channels 24 128 s1 = Ok s1' ∧
  pixel s1' "vh_vv" 0 = Some q1 ∧ pixel s1' "vv_vh" 0 = Some q2 ∧
  finite_nonzero q1 = true ∧ finite_nonzero q2 = true ∧
  is_nan (SFmul 24 128 q1 q2) = false ∧ sign (SFmul 24 128 q1 q2) = false ∧
  ∃ m e, SFmul 24 128 q1 q2 = S754_finite false m e ∧
         (Rabs (F2R (Zpos m) e - 1) <= bpow (3 - 24))%R.
Proof.
  intros s1 s1' q1 q2.
  assert (add_channels 24 128 s1 = Ok s1') as H by (vm_compute; reflexivity).
  assert (pixel s1' "vh_vv" 0 = Some q1) as H1 by (vm_compute; reflexivity).
  assert (pixel s1' "vv_vh" 0 = Some q2) as H2 by (vm_compute; reflexivity).
  assert (finite_nonzero q1 = true) as F1 by (vm_compute; reflexivity).
  assert (finite_nonzero q2 = true) as F2 by (vm_compute; reflexivity).
  destruct (ratio_product 24 128 s1 s1' 0 q1 q2 H H1 H2 F1 F2)
    as (x & y & _ & _ & _ & _ & _ & _ & _ & Hn & Hs & Hb).
  repeat (split; [assumption|]). apply Hb; lia.
Defined.

(** * Instances: the theorems at concrete rasters, and where the specification's
    wording fails *)

(** C1 at the binary32 raster with one pixel, [vv = 3] and [vh = 29]. *)
Lemma ratio_channels_divide_witness :
  let s1 := raster 24 128 [# 3] [# 29] in
  let s1' := with_channels 24 128 s1 [# of_Z 24 128 3] [# of_Z 24 128 29] in
  add_channels 24 128 s1 = Ok s1' ∧
  pixel s1 "vv" 0 = Some (of_Z 24 128 3) ∧
  pixel s1 "vh" 0 = Some (of_Z 24 128 29) ∧
  pixel s1' "vh_vv" 0 = Some (SFdiv 24 128 (of_Z 24 128 29) (of_Z 24 128 3)) ∧
  pixel s1' "vv_vh" 0 = Some (SFdiv 24 128 (of_Z 24 128 3) (of_Z 24 128 29)).
Proof.
  intros s1 s1'.
  assert (add_channels 24 128 s1 = Ok s1') as H by (vm_compute; reflexivity).
  assert (pixel s1 "vv" 0 = Some (of_Z 24 128 3)) as Hx by (vm_compute; reflexivity).
  assert (pixel s1 "vh" 0 = Some (of_Z 24 128 29)) as Hy by (vm_compute; reflexivity).
  destruct (ratio_channels_divide 24 128 s1 s1' 0 _ _ H Hx Hy) as [H1 H2].
  split; [exact H|]. split; [exact Hx|]. split; [exact Hy|].
  split; [apply H1|apply H2]; vm_compute; reflexivity.
Defined.



(** C4 as stated fails: a zero denominator under a non-zero numerator gives an
    infinity, not NaN ([vv = 1], [vh = 0], channel [vv_vh]). *)
Lemma zero_denominator_gives_infinity :
  let s1 := raster 24 128 [# 1] [# 0] in
  let s1' := with_channels 24 128 s1 [# of_Z 24 128 1] [# of_Z 24 128 0] in
  add_channels 24 128 s1 = Ok s1' ∧
  pixel s1 "vh" 0 = Some (S754_zero false) ∧
  pixel s1' "vv_vh" 0 = Some (S754_infinity false) ∧
  is_nan (S754_infinity false) = false.
Proof. cbv zeta. repeat split; vm_compute; reflexivity. Qed.

(** C4 as amended, at a raster with the three kinds of pixel: [1/0], [0/0]
    and a NaN denominator. *)
Lemma zero_or_missing_denominator_witness :
  let vv := [# of_Z 24 128 1; S754_zero false; of_Z 24 128 1] in
  let vh := [# S754_zero false; S754_zero false; S754_nan] in
  let s1 : xr_Dataset 3 := <["vh" := vh]> (<["vv" := vv]> ∅) in
  let s1' := with_channels 24 128 s1 vv vh in
  add_channels 24 128 s1 = Ok s1' ∧
  pixel s1' "vv_vh" 0 = Some (S754_infinity false) ∧
  pixel s1' "vv_vh" 1 = Some S754_nan ∧
  pixel s1' "vv_vh" 2 = Some S754_nan.
Proof.
  intros vv vh s1 s1'.
  assert (add_channels 24 128 s1 = Ok s1') as H by (vm_compute; reflexivity).
  split; [exact H|]. split; [|split].
  - refine (proj1 (proj2 (proj2 (zero_or_missing_denominator 24 128 s1 s1' 0
              (of_Z 24 128 1) (S754_zero false) H _ _))) _); vm_compute; reflexivity.
  - refine (proj1 (proj2 (proj2 (zero_or_missing_denominator 24 128 s1 s1' 1
              (S754_zero false) (S754_zero false) H _ _))) _); vm_compute; reflexivity.
  - refine (proj1 (zero_or_missing_denominator 24 128 s1 s1' 2
              (of_Z 24 128 1) S754_nan H _ _) _); vm_compute; reflexivity.
Defined.

(** C5 as stated fails: the cell adds five variables, not three. *)
Lemma five_not_three :
  let s1 := raster 24 128 [# 1] [# 1] in
  let s1' := with_channels 24 128 s1 [# of_Z 24 128 1] [# of_Z 24 128 1] in
  add_channels 24 128 s1 = Ok s1' ∧
  size (dom s1' ∖ dom s1) = 5%nat.
Proof. cbv zeta. split; vm_compute; reflexivity. Qed.

(** C5 as amended, at the raster with one pixel in each band. *)
Lemma five_derived_channels_witness :
  let s1 := raster 24 128 [# 1] [# 1] in
  let s1' := with_channels 24 128 s1 [# of_Z 24 128 1] [# of_Z 24 128 1] in
  add_channels 24 128 s1 = Ok s1' ∧
  dom s1' = dom s1 ∪ derived_names ∧
  size derived_names = 5%nat.
Proof.
  intros s1 s1'.
  assert (add_channels 24 128 s1 = Ok s1') as H by (vm_compute; reflexivity).
  destruct (five_derived_channels 24 128 s1 s1' H) as (Hd & Hs & _).
  split; [exact H|]. split; [exact Hd|exact Hs].
Defined.

(** C6 on three datasets given out of order, two of them at the same time. *)
Lemma senti_datasets_sorted_witness :
  let found := [example_dataset 7 2; example_dataset 5 9; example_dataset 7 1] in
  senti_datasets found !! 1%nat = Some (example_dataset 7 1) ∧
  senti_datasets found !! 2%nat = Some (example_dataset 7 2) ∧
  tuple_le (key (example_dataset 7 1)) (key (example_dataset 7 2)).
Proof.
  intros found.
  assert (senti_datasets found !! 1%nat = Some (example_dataset 7 1)) as Ha
    by (vm_compute; reflexivity).
  assert (senti_datasets found !! 2%nat = Some (example_dataset 7 2)) as Hb
    by (vm_compute; reflexivity).
  split; [exact Ha|]. split; [exact Hb|].
  exact (senti_datasets_sorted found 1 _ _ Ha Hb).
Defined.

(** C7 at the raster of the product example. *)
Lemma originals_unchanged_witness :
  let s1 := raster 24 128 [# 3] [# 29] in
  let s1' := with_channels 24 128 s1 [# of_Z 24 128 3] [# of_Z 24 128 29] in
  add_channels 24 128 s1 = Ok s1' ∧
  s1' !! "vv" = s1 !! "vv" ∧ s1' !! "vh" = s1 !! "vh".
Proof.
  intros s1 s1'.
  assert (add_channels 24 128 s1 = Ok s1') as H by (vm_compute; reflexivity).
  destruct (originals_unchanged 24 128 s1 s1' H) as (Hvv & Hvh & _).
  split; [exact H|]. split; [exact Hvv|exact Hvh].
Defined.

(** C8 in a world where every call returns but the last one, the renderer of
    the second composite: its error is the outcome of the run. *)
Lemma errors_propagate_witness :
  let found := replicate 101 (example_dataset 0 0) in
  let s1 := raster 24 128 [# 3] [# 29] in
  let w := no_rgb_world found s1 in
  Datacube w "Sentinel-1 example" = Ok () ∧
  locate w = Ok (senti_datasets found, example_dataset 0 0) ∧
  load w "s1_rtc" id = Ok s1 ∧
  succeeds (add_channels 24 128 s1) ∧
  run_all 24 128 w = Raise (LibraryError "rgb").
Proof.
  intros found s1 w.
  assert (Datacube w "Sentinel-1 example" = Ok ()) as Hdc by reflexivity.
  assert (locate w = Ok (senti_datasets found, example_dataset 0 0)) as Hloc
    by (vm_compute; reflexivity).
  assert (load w "s1_rtc" id = Ok s1) as Hl by reflexivity.
  assert (selected_id (senti_datasets found) = Ok found) as Hsel
    by (vm_compute; reflexivity).
  assert (extent_of found = Ok example_extent) as Hext by (vm_compute; reflexivity).
  assert (interval (lat_dict example_extent)
          = Ok (DNum (S754_zero true), DNum (S754_zero false))) as Hlat
    by (vm_compute; reflexivity).
  assert (interval (lon_dict example_extent)
          = Ok (DNum (S754_zero true), DNum (S754_zero false))) as Hlon
    by (vm_compute; reflexivity).
  assert (display_map w (DNum (S754_zero true), DNum (S754_zero false))
            (DNum (S754_zero true), DNum (S754_zero false)) = Ok ()) as Hmap
    by reflexivity.
  assert (add_channels 24 128 s1
          = Ok (with_channels 24 128 s1 [# of_Z 24 128 3] [# of_Z 24 128 29])) as Hadd
    by (vm_compute; reflexivity).
  split; [exact Hdc|]. split; [exact Hloc|]. split; [exact Hl|].
  split; [eexists; exact Hadd|].
  destruct (errors_propagate 24 128 w (LibraryError "rgb")) as (_ & Hrun & _).
  destruct (Hrun Hdc) as (_ & _ & H1). destruct (H1 _ _ Hloc) as (_ & H2).
  destruct (H2 _ Hl) as (_ & H3). destruct (H3 _ Hsel) as (_ & H4).
  destruct (H4 _ Hext) as (_ & H5). destruct (H5 _ Hlat) as (_ & H6).
  destruct (H6 _ Hlon) as (_ & H7). destruct (H7 Hmap) as (_ & H8).
  destruct (H8 _ Hadd) as (r & g & q & b & c & _ & _ & _ & _ & _ & _ & H9).
  destruct (H9 eq_refl) as (_ & H10). destruct (H10 eq_refl) as (_ & H11).
  destruct (H11 eq_refl) as (_ & H12). destruct (H12 eq_refl) as (H13 & _).
  exact (H13 eq_refl).
Defined.

(** C9 at the raster of the product example, which holds no infinity. *)
Lemma composites_agree_witness :
  let s1 := raster 24 128 [# 3] [# 29] in
  let s1' := with_channels 24 128 s1 [# of_Z 24 128 3] [# of_Z 24 128 29] in
  add_channels 24 128 s1 = Ok s1' ∧
  ∃ c, method2 24 128 s1' = Ok c ∧
       s1' !! "vv_r" = Some (red_arr c) ∧
       s1' !! "vh_g" = Some (green_arr c) ∧
       s1' !! "vhvv_b" = Some (blue_arr c).
Proof.
  intros s1 s1'.
  assert (add_channels 24 128 s1 = Ok s1') as H by (vm_compute; reflexivity).
  split; [exact H|].
  destruct (composites_agree 24 128 s1 s1' H) as (c & Hc & Hr & Hg & Hb & _).
  - assert (s1' !! "vv" = Some [# of_Z 24 128 3]) as Hvv by (vm_compute; reflexivity).
    assert (s1' !! "vh" = Some [# of_Z 24 128 29]) as Hvh by (vm_compute; reflexivity).
    assert (s1' !! "vh_vv" = Some [# SFdiv 24 128 (of_Z 24 128 29) (of_Z 24 128 3)])
      as Hq by (vm_compute; reflexivity).
    assert (is_inf (of_Z 24 128 3) = false) as I1 by (vm_compute; reflexivity).
    assert (is_inf (of_Z 24 128 29) = false) as I2 by (vm_compute; reflexivity).
    assert (is_inf (SFdiv 24 128 (of_Z 24 128 29) (of_Z 24 128 3)) = false) as I3
      by (vm_compute; reflexivity).
    intros k a Hk Ha.
    apply elem_of_cons in Hk as [->|Hk];
      [rewrite Hvv in Ha; injection Ha as <-; constructor; [exact I1|constructor]|].
    apply elem_of_cons in Hk as [->|Hk];
      [rewrite Hvh in Ha; injection Ha as <-; constructor; [exact I2|constructor]|].
    apply elem_of_cons in Hk as [->|Hk];
      [rewrite Hq in Ha; injection Ha as <-; constructor; [exact I3|constructor]|].
    apply elem_of_nil in Hk. destruct Hk.
  - exists c. split; [exact Hc|]. split; [exact Hr|]. split; [exact Hg|exact Hb].
Defined.



(** * Instances of the further properties *)

(** X3 when the query finds nothing. *)
Lemma locate_outcome_witness :
  let w := quiet_world [] (raster 24 128 [# 3] [# 29]) in
  find_datasets w "s1_rtc" = Ok [] ∧ locate w = Raise IndexError.
Proof.
  intros w.
  assert (find_datasets w "s1_rtc" = Ok []) as Hf by reflexivity.
  split; [exact Hf|].
  apply (proj1 (locate_outcome w [] Hf)). simpl. lia.
Defined.

(** X4 on a list whose second document has no ['id']: the comprehension ends
    with that document's [KeyError]. *)
Lemma selected_id_outcome_witness :
  selected_id [example_dataset 0 0; anonymous_dataset] = Raise (KeyError "id").
Proof.
  destruct (selected_id_outcome [example_dataset 0 0; anonymous_dataset]) as (_ & _ & H).
  apply (H [example_dataset 0 0] anonymous_dataset [] (KeyError "id")).
  - reflexivity.
  - constructor; [exists (DStr id); reflexivity|constructor].
  - reflexivity.
Defined.

(** X5 with 101 datasets, none of which has the identifier. *)
Lemma run_all_unknown_id_witness :
  let found := replicate 101 other_dataset in
  let s1 := raster 24 128 [# 3] [# 29] in
  let w := quiet_world found s1 in
  Datacube w "Sentinel-1 example" = Ok () ∧
  locate w = Ok (found, other_dataset) ∧
  load w "s1_rtc" id = Ok s1 ∧
  run_all 24 128 w = Raise IndexError.
Proof.
  intros found s1 w.
  assert (Datacube w "Sentinel-1 example" = Ok ()) as Hdc by reflexivity.
  assert (locate w = Ok (found, other_dataset)) as Hloc by (vm_compute; reflexivity).
  assert (load w "s1_rtc" id = Ok s1) as Hl by reflexivity.
  split; [exact Hdc|]. split; [exact Hloc|]. split; [exact Hl|].
  apply (run_all_unknown_id 24 128 w found other_dataset s1 Hdc Hloc Hl).
  apply Forall_replicate.
  exists (DStr "00000000-0000-0000-0000-000000000000").
  split; vm_compute; reflexivity.
Defined.

(** X6 on a raster without the band [vh]. *)
Lemma add_channels_outcome_witness :
  add_channels 24 128 (<["vv" := [# of_Z 24 128 3]]> ∅ : xr_Dataset 1)
  = Raise (AttributeError "vh").
Proof.
  rewrite (add_channels_outcome 24 128 (<["vv" := [# of_Z 24 128 3]]> ∅ : xr_Dataset 1)).
  vm_compute. reflexivity.
Defined.

(** X8 at the raster of the product example. *)
Lemma add_channels_idempotent_witness :
  let s1 := raster 24 128 [# 3] [# 29] in
  let s1' := with_channels 24 128 s1 [# of_Z 24 128 3] [# of_Z 24 128 29] in
  add_channels 24 128 s1 = Ok s1' ∧ add_channels 24 128 s1' = Ok s1'.
Proof.
  intros s1 s1'.
  assert (add_channels 24 128 s1 = Ok s1') as H by (vm_compute; reflexivity).
  split; [exact H|]. exact (add_channels_idempotent 24 128 s1 s1' H).
Defined.

(** X9 with a NaN pixel in [vv]. *)
Lemma nan_pixels_stay_nan_witness :
  let vv := [# S754_nan; of_Z 24 128 1] in
  let vh := [# of_Z 24 128 1; of_Z 24 128 1] in
  let s1 : xr_Dataset 2 := <["vh" := vh]> (<["vv" := vv]> ∅) in
  let s1' := with_channels 24 128 s1 vv vh in
  add_channels 24 128 s1 = Ok s1' ∧
  pixel s1 "vv" 0 = Some S754_nan ∧
  pixel s1' "vv_r" 0 = Some S754_nan ∧
  pixel s1' "vhvv_b" 0 = Some S754_nan.
Proof.
  intros vv vh s1 s1'.
  assert (add_channels 24 128 s1 = Ok s1') as H by (vm_compute; reflexivity).
  assert (pixel s1 "vv" 0 = Some S754_nan) as Hn by (vm_compute; reflexivity).
  destruct (proj1 (nan_pixels_stay_nan 24 128 s1 s1' 0 H) Hn) as (Hr & _ & _ & Hb).
  split; [exact H|]. split; [exact Hn|]. split; [exact Hr|exact Hb].
Defined.

(** X10 with a band [vv] of two NaN pixels. *)
Lemma all_nan_band_witness :
  let vv := [# S754_nan; S754_nan] in
  let vh := [# of_Z 24 128 1; of_Z 24 128 1] in
  let s1 : xr_Dataset 2 := <["vh" := vh]> (<["vv" := vv]> ∅) in
  let s1' := with_channels 24 128 s1 vv vh in
  add_channels 24 128 s1 = Ok s1' ∧
  s1' !! "vv_r" = Some [# S754_nan; S754_nan].
Proof.
  intros vv vh s1 s1'.
  assert (add_channels 24 128 s1 = Ok s1') as H by (vm_compute; reflexivity).
  assert (s1 !! "vv" = Some vv) as Hvv by (vm_compute; reflexivity).
  split; [exact H|].
  refine (proj2 (all_nan_band 24 128 s1 s1' vv H Hvv _)).
  constructor; [reflexivity|]. constructor; [reflexivity|]. constructor.
Defined.

(** X11 at the raster where [vv] has a zero pixel under a positive [vh]. *)
Lemma infinite_mean_flattens_witness :
  let s1 := raster 24 128 [# 1; 0] [# 1; 1] in
  let s1' := with_channels 24 128 s1
               [# of_Z 24 128 1; of_Z 24 128 0] [# of_Z 24 128 1; of_Z 24 128 1] in
  let vh_vv := [# of_Z 24 128 1; S754_infinity false] in
  add_channels 24 128 s1 = Ok s1' ∧
  s1' !! "vh_vv" = Some vh_vv ∧
  mean 24 128 vh_vv = S754_infinity false ∧
  pixel s1' "vhvv_b" 0 = Some (S754_zero false).
Proof.
  intros s1 s1' vh_vv.
  assert (add_channels 24 128 s1 = Ok s1') as H by (vm_compute; reflexivity).
  assert (s1' !! "vh_vv" = Some vh_vv) as Hq by (vm_compute; reflexivity).
  assert (sign (of_Z 24 128 1) = false) as S1 by (vm_compute; reflexivity).
  assert (finite_nonzero (of_Z 24 128 (Z.of_nat (count_not_nan vh_vv))) = true) as Hc
    by (vm_compute; reflexivity).
  assert (vec_to_list vh_vv !! 0%nat = Some (of_Z 24 128 1)) as Hx by reflexivity.
  assert (is_finite (of_Z 24 128 1) = true) as Hfin by (vm_compute; reflexivity).
  destruct (infinite_mean_flattens 24 128 s1 s1' vh_vv 0 (of_Z 24 128 1) H Hq)
    as [Hm Hp]; [| |exact Hc|exact Hx|].
  - constructor; [right; exact S1|]. constructor; [right; reflexivity|]. constructor.
  - apply list_elem_of_further, list_elem_of_here.
  - split; [exact H|]. split; [exact Hq|]. split; [exact Hm|].
    rewrite Hfin in Hp. exact Hp.
Defined.

(** X13 in a world where everything returns. *)
Lemma run_all_Ok_witness :
  let found := replicate 101 (example_dataset 0 0) in
  let s1 := raster 24 128 [# 3] [# 29] in
  let w := quiet_world found s1 in
  shows_everything w ∧
  locate w = Ok (found, example_dataset 0 0) ∧
  succeeds (run_all 24 128 w).
Proof.
  intros found s1 w.
  assert (shows_everything w) as Hw by (repeat split; intros; reflexivity).
  assert (Datacube w "Sentinel-1 example" = Ok ()) as Hdc by reflexivity.
  assert (locate w = Ok (found, example_dataset 0 0)) as Hloc
    by (vm_compute; reflexivity).
  assert (load w "s1_rtc" id = Ok s1) as Hl by reflexivity.
  assert (selected_id found = Ok found) as Hsel by (vm_compute; reflexivity).
  assert (extent_of found = Ok example_extent) as Hext by (vm_compute; reflexivity).
  assert (interval (lat_dict example_extent)
          = Ok (DNum (S754_zero true), DNum (S754_zero false))) as Hlat
    by (vm_compute; reflexivity).
  assert (interval (lon_dict example_extent)
          = Ok (DNum (S754_zero true), DNum (S754_zero false))) as Hlon
    by (vm_compute; reflexivity).
  assert (s1 !! "vv" = Some [# of_Z 24 128 3]) as Hvv by (vm_compute; reflexivity).
  assert (s1 !! "vh" = Some [# of_Z 24 128 29]) as Hvh by (vm_compute; reflexivity).
  split; [exact Hw|]. split; [exact Hloc|].
  destruct (run_all_Ok 24 128 w _ _ _ _ _ _ _ _ _ Hw Hdc Hloc Hl Hsel Hext Hlat Hlon
              Hvv Hvh) as (c & _ & Hrun).
  eexists. exact Hrun.
Defined.

(** * Further properties of the arithmetic *)

Section Accuracy.
Context (prec emax : Z) {n : nat}.

(** X14: a ratio pixel that is an ordinary number is the exact quotient of
    the two measurement pixels, rounded: its sign is the exclusive or of their
    signs, it is within half a unit of its last place of the exact quotient,
    and it is in the canonical form of the format. *)
Theorem ratio_pixel_rounding (s1 s1' : xr_Dataset n) i sx mx ex sy my ey s m e :
  1 <= prec →
  add_channels prec emax s1 = Ok s1' →
  pixel s1 "vv" i = Some (S754_finite sx mx ex) →
  pixel s1 "vh" i = Some (S754_finite sy my ey) →
  pixel s1' "vv_vh" i = Some (S754_finite s m e) →
  s = xorb sx sy ∧
  (Rabs (F2R (Zpos m) e - F2R (Zpos mx) ex / F2R (Zpos my) ey) <= bpow e / 2)%R ∧
  fexp prec emax (Zdigits2 (Zpos m) + e) = e ∧ e <= emax - prec.
Proof.
  intros Hp H Hx Hy Hq.
  destruct (ratio_pixels prec emax _ _ _ _ _ H Hx Hy) as [Hq' _].
  assert (SFdiv prec emax (S754_finite sx mx ex) (S754_finite sy my ey)
          = S754_finite s m e) as E by congruence.
  split.
  - assert (finite_nonzero (SFdiv prec emax (S754_finite sx mx ex) (S754_finite sy my ey))
            = true) as Hf by (rewrite E; reflexivity).
    apply SFdiv_finite_nonzero in Hf as (_ & _ & Hs). rewrite E in Hs. exact Hs.
  - exact (SFdiv_finite_spec prec emax Hp sx mx ex sy my ey s m e E).
Qed.

End Accuracy.

(** X16: eight binary32 pixels that all hold the number nearest to 0.1 have
    that number as their mean, because the eight accumulators of the pairwise
    sum only double it; adding the eight one after the other would give a
    different sum. *)
Theorem mean_of_eight_equal_pixels :
  let tenth := S754_finite false 13421773 (-27) in
  sum 24 128 (replicate 8 tenth) = S754_finite false 13421773 (-24) ∧
  mean 24 128 (replicate 8 tenth) = tenth ∧
  add_each 24 128 pos_zero (replicate 8 tenth) = S754_finite false 13421774 (-24).
Proof. cbv zeta. repeat split; vm_compute; reflexivity. Qed.

(** X14 at the raster of the product example: [3/29] in binary32. *)
Lemma ratio_pixel_rounding_witness :
  let s1 := raster 24 128 [# 3] [# 29] in
  let s1' := with_channels 24 128 s1 [# of_Z 24 128 3] [# of_Z 24 128 29] in
  add_channels 24 128 s1 = Ok s1' ∧
  pixel s1' "vv_vh" 0 = Some (S754_finite false 13884593 (-27)) ∧
  (Rabs (F2R 13884593 (-27) - F2R 12582912 (-22) / F2R 15204352 (-19))
   <= bpow (-27) / 2)%R.
Proof.
  intros s1 s1'.
  assert (add_channels 24 128 s1 = Ok s1') as H by (vm_compute; reflexivity).
  assert (pixel s1 "vv" 0 = Some (S754_finite false 12582912 (-22))) as Hx
    by (vm_compute; reflexivity).
  assert (pixel s1 "vh" 0 = Some (S754_finite false 15204352 (-19))) as Hy
    by (vm_compute; reflexivity).
  assert (pixel s1' "vv_vh" 0 = Some (S754_finite false 13884593 (-27))) as Hq
    by (vm_compute; reflexivity).
  split; [exact H|]. split; [exact Hq|].
  refine (proj1 (proj2 (ratio_pixel_rounding 24 128 s1 s1' 0 _ _ _ _ _ _ _ _ _ _ H Hx Hy Hq))).
  lia.
Defined.

